(** * vite-plugin-eslint: path filter and lint-result policy

    A shallow embedding of [src/index.js].

    - JavaScript strings are lists of UTF-16 code units, given as
      numbers; a character literal such as ["*"] stands for its code
      unit.  The program only ever distinguishes the fourteen
      regular-expression syntax characters and the path separator from
      all other code units, and the [.] of an expression refuses the
      four line terminators.
    - A [RegExp] object is a mutable cell: its matcher, its [global] and
      [sticky] flags and its [lastIndex].  Objects live in a store and
      are referred to by location, so that a caller-supplied expression
      is shared between the caller, the include list and the exclude
      list exactly as in the program.
    - [new RegExp(source)] is modelled by a parser and a backtracking
      matcher for the fragment of the pattern language that
      [compilePattern] can produce (characters, identity escapes, [.],
      simple classes, [^], [$] and the [*] quantifier).
    - The asynchronous [transform] hook is written in a small monad that
      threads the store, persistent storage and the log of calls made to
      the collaborators (lint engine, formatter, console) and carries
      thrown values.  The collaborators are parameters: each call
      answers or throws, and what is thrown may be any value, with a
      string [message] or without.
    - [transform] takes the merged options, the filter and the engine
      as given; the factory [vitePluginEslint], which merges the
      default options and builds the filter, and the [configResolved]
      hook, which builds the engine, are modelled after it.  The
      expression literals of the default options are given as syntax
      trees. *)

From Stdlib Require Import Ascii String List Arith NArith Lia Bool DecimalString.
From stdpp Require Import base list.
Import ListNotations.

(** ** Strings *)

(** A code unit is a number below 65536; nothing below depends on the
    bound.  In [unit_scope] a one-character literal denotes the code
    unit of that character. *)
Abbreviation codeUnit := N.

Declare Scope unit_scope.
Delimit Scope unit_scope with unit.
String Notation N Byte.to_N Byte.of_N : unit_scope.

Local Open Scope unit_scope.
Local Open Scope list_scope.

Definition JsString := list codeUnit.

Definition js (s : string) : JsString := map N_of_ascii (list_ascii_of_string s).

(** [String.prototype.includes] *)
Fixpoint startsWith (needle hay : JsString) : bool :=
  match needle, hay with
  | [], _ => true
  | _ :: _, [] => false
  | a :: needle', b :: hay' => N.eqb a b && startsWith needle' hay'
  end.

Fixpoint includes (needle hay : JsString) : bool :=
  startsWith needle hay ||
  match hay with
  | [] => false
  | _ :: hay' => includes needle hay'
  end.

(** [Array.prototype.join] *)
Fixpoint join (sep : JsString) (parts : list JsString) : JsString :=
  match parts with
  | [] => []
  | [p] => p
  | p :: rest => p ++ sep ++ join sep rest
  end.

(** Template-literal rendering of a non-negative integer. *)
Definition numberToString (n : nat) : JsString :=
  js (NilZero.string_of_uint (Nat.to_uint n)).

(** ** Pattern Compiler: the three [replace] passes of [compilePattern] *)

Module PatternCompiler.

(** The character class [[|\\{}()[\]^$+*?.]] of the first pass. *)
Definition specialChars : JsString := js "|\{}()[]^$+*?.".

Definition isSpecial (c : codeUnit) : bool := existsb (N.eqb c) specialChars.

Definition isStar (c : codeUnit) : bool := N.eqb c "*".

(** [.replace(/[|\\{}()[\]^$+*?.]/g, '\\$&')] *)
Definition escapeChar (c : codeUnit) : JsString :=
  if isSpecial c then ["\"; c] else [c].

Definition escapeSpecial (pattern : JsString) : JsString :=
  flat_map escapeChar pattern.

(** [.replace(/\*\*/g, '.*')]: leftmost, non-overlapping pairs of stars. *)
Fixpoint replaceStarStar (s : JsString) : JsString :=
  match s with
  | [] => []
  | c1 :: rest =>
      match rest with
      | c2 :: rest' =>
          if isStar c1 && isStar c2
          then "." :: "*" :: replaceStarStar rest'
          else c1 :: replaceStarStar rest
      | [] => [c1]
      end
  end.

(** [.replace(/\*/g, '[^/]*')] *)
Definition starChar (c : codeUnit) : JsString :=
  if isStar c then js "[^/]*" else [c].

Definition replaceStar (s : JsString) : JsString := flat_map starChar s.

Definition escaped (pattern : JsString) : JsString :=
  replaceStar (replaceStarStar (escapeSpecial pattern)).

(** The source text handed to [new RegExp]: [`^${escaped}$`]. *)
Definition compiledSource (pattern : JsString) : JsString :=
  "^" :: escaped pattern ++ ["$"].

End PatternCompiler.

(** ** The pattern language understood by [new RegExp] *)

Module Regex.

Inductive atom : Type :=
| AChar (c : codeUnit)
| ADot
| AClass (invert : bool) (members : list codeUnit).

Inductive term : Type :=
| TAssertStart
| TAssertEnd
| TAtom (a : atom)
| TStar (a : atom).

Inductive token : Type :=
| KAtom (a : atom)
| KStart
| KEnd
| KStar.

(** SyntaxCharacter of the ECMAScript grammar. *)
Definition isSyntaxCharacter (c : codeUnit) : bool :=
  existsb (N.eqb c) (js "^$\.*+?()[]{}|").

(** LineTerminator: LF, CR, LS (U+2028) and PS (U+2029). *)
Definition isLineTerminator (c : codeUnit) : bool :=
  N.eqb c 10 || N.eqb c 13 || N.eqb c 8232 || N.eqb c 8233.

(** Tokens.  [None] is a [SyntaxError], or a construct outside the
    fragment modelled here (groups, alternation, [+], [?], braces,
    class escapes, ranges inside a class). *)
Fixpoint lex (src : JsString) : option (list token) :=
  match src with
  | [] => Some []
  | c :: rest =>
      if N.eqb c "\" then
        match rest with
        | e :: rest' =>
            if isSyntaxCharacter e || N.eqb e "/"
            then option_map (cons (KAtom (AChar e))) (lex rest')
            else None
        | [] => None
        end
      else if N.eqb c "^" then option_map (cons KStart) (lex rest)
      else if N.eqb c "$" then option_map (cons KEnd) (lex rest)
      else if N.eqb c "." then option_map (cons (KAtom ADot)) (lex rest)
      else if N.eqb c "*" then option_map (cons KStar) (lex rest)
      else if N.eqb c "[" then
        (fix class (invert first : bool) (members : list codeUnit)
                   (r : JsString) {struct r} : option (list token) :=
           match r with
           | [] => None
           | d :: r' =>
               if first && N.eqb d "^" then class true false members r'
               else if N.eqb d "]"
               then option_map (cons (KAtom (AClass invert (rev members)))) (lex r')
               else if N.eqb d "\" || N.eqb d "-" then None
               else class invert false (d :: members) r'
           end) false true [] rest
      else if existsb (N.eqb c) (js "+?(){|") then None
      else option_map (cons (KAtom (AChar c))) (lex rest)
  end.

(** Terms: an atom with its optional [*]; a [*] with nothing to repeat
    is a [SyntaxError]. *)
Fixpoint group (ks : list token) : option (list term) :=
  match ks with
  | [] => Some []
  | KStar :: _ => None
  | KStart :: ks' => option_map (cons TAssertStart) (group ks')
  | KEnd :: ks' => option_map (cons TAssertEnd) (group ks')
  | KAtom a :: ks' =>
      match ks' with
      | KStar :: ks'' => option_map (cons (TStar a)) (group ks'')
      | _ => option_map (cons (TAtom a)) (group ks')
      end
  end.

Definition parse (src : JsString) : option (list term) :=
  match lex src with
  | Some ks => group ks
  | None => None
  end.

Definition atomMatches (a : atom) (c : codeUnit) : bool :=
  match a with
  | AChar x => N.eqb x c
  | ADot => negb (isLineTerminator c)
  | AClass invert members => xorb invert (existsb (N.eqb c) members)
  end.

(** Backtracking matcher.  [matchTerms ts index rest] runs the terms at
    position [index] of the input, [rest] being the input from there on;
    the answer is the end index of the first match in priority order
    (the quantifier is greedy). *)
Fixpoint matchTerms (ts : list term) (index : nat) (rest : JsString) : option nat :=
  match ts with
  | [] => Some index
  | TAssertStart :: ts' =>
      if Nat.eqb index 0 then matchTerms ts' index rest else None
  | TAssertEnd :: ts' =>
      match rest with
      | [] => matchTerms ts' index rest
      | _ :: _ => None
      end
  | TAtom a :: ts' =>
      match rest with
      | c :: rest' => if atomMatches a c then matchTerms ts' (S index) rest' else None
      | [] => None
      end
  | TStar a :: ts' =>
      (fix star (index : nat) (rest : JsString) {struct rest} : option nat :=
         match rest with
         | c :: rest' =>
             if atomMatches a c then
               match star (S index) rest' with
               | Some e => Some e
               | None => matchTerms ts' index rest
               end
             else matchTerms ts' index rest
         | [] => matchTerms ts' index rest
         end) index rest
  end.

(** The [[RegExpMatcher]] internal slot: input and start index to end
    index, or failure. *)
Definition Matcher := JsString -> nat -> option nat.

Definition matcherOf (ts : list term) : Matcher :=
  fun input index => matchTerms ts index (skipn index input).

End Regex.

(** ** RegExp objects and the store they live in *)

Record RegExp : Type := mkRegExp {
  RegExpMatcher : Regex.Matcher;
  global : bool;
  sticky : bool;
  lastIndex : nat
}.

Definition setLastIndex (R : RegExp) (i : nat) : RegExp :=
  mkRegExp (RegExpMatcher R) (global R) (sticky R) i.

(** [new RegExp(source)], without flags; [None] is a [SyntaxError]. *)
Definition RegExpCreate (source : JsString) : option RegExp :=
  option_map (fun ts => mkRegExp (Regex.matcherOf ts) false false 0)
             (Regex.parse source).

(** The loop of RegExpBuiltinExec: try the matcher at [index], then at
    the next index unless the expression is sticky; [fuel] counts the
    start positions left, so it is [0] exactly when [index] is past the
    end of the input. *)
Fixpoint execLoop (m : Regex.Matcher) (y : bool) (input : JsString)
                  (fuel index : nat) : option nat :=
  match fuel with
  | 0 => None
  | S fuel' =>
      match m input index with
      | Some e => Some e
      | None => if y then None else execLoop m y input fuel' (S index)
      end
  end.

(** RegExpBuiltinExec, reduced to what [test] observes: the end index
    of the match, if any, and the object afterwards.  [lastIndex] is
    read and written only under the [g] or [y] flag. *)
Definition RegExpBuiltinExec (R : RegExp) (input : JsString) : option nat * RegExp :=
  let stateful := global R || sticky R in
  let start := if stateful then lastIndex R else 0 in
  match execLoop (RegExpMatcher R) (sticky R) input (S (length input) - start) start with
  | Some e => (Some e, if stateful then setLastIndex R e else R)
  | None => (None, if stateful then setLastIndex R 0 else R)
  end.

Definition loc := nat.

Abbreviation Store := (list RegExp).

(** [regex.test(id)] on the object at location [r].  JavaScript has no
    dangling references; a location outside the store answers [false]. *)
Definition test (r : loc) (id : JsString) (st : Store) : bool * Store :=
  match st !! r with
  | Some R =>
      let '(result, R') := RegExpBuiltinExec R id in
      (match result with Some _ => true | None => false end, <[r := R']> st)
  | None => (false, st)
  end.

(** ** Path Filter *)

Inductive Pattern : Type :=
| PString (s : JsString)
| PRegExp (r : loc).

(** The [include] and [exclude] options:
    [RegExp|string|(RegExp|string)[]|null|undefined]. *)
Inductive PathOption : Type :=
| Undefined
| Null
| Single (p : Pattern)
| Array (ps : list Pattern).

Definition compilePattern (pattern : Pattern) (st : Store) : option (loc * Store) :=
  match pattern with
  | PRegExp r => Some (r, st)
  | PString s =>
      match RegExpCreate (PatternCompiler.compiledSource s) with
      | Some R => Some (length st, st ++ [R])
      | None => None
      end
  end.

(** [pathArr.map(pattern => compilePattern(pattern))] *)
Fixpoint compileAll (pathArr : list Pattern) (st : Store) : option (list loc * Store) :=
  match pathArr with
  | [] => Some ([], st)
  | pattern :: rest =>
      match compilePattern pattern st with
      | Some (r, st1) =>
          match compileAll rest st1 with
          | Some (rs, st2) => Some (r :: rs, st2)
          | None => None
          end
      | None => None
      end
  end.

Definition handlePath (path : PathOption) (st : Store) : option (list loc * Store) :=
  match path with
  | Undefined | Null => Some ([], st)
  | Single p => compileAll [p] st
  | Array ps => compileAll ps st
  end.

(** The closure returned by [createFilter]: its two captured arrays. *)
Record Filter : Type := mkFilter {
  compiledInclude : list loc;
  compiledExclude : list loc
}.

Definition createFilter (include exclude : PathOption) (st : Store)
  : option (Filter * Store) :=
  match handlePath include st with
  | Some (ci, st1) =>
      match handlePath exclude st1 with
      | Some (ce, st2) => Some (mkFilter ci ce, st2)
      | None => None
      end
  | None => None
  end.

(** [regexes.some(regex => regex.test(id))] *)
Fixpoint some (regexes : list loc) (id : JsString) (st : Store) : bool * Store :=
  match regexes with
  | [] => (false, st)
  | regex :: rest =>
      let '(hit, st') := test regex id st in
      if hit then (true, st') else some rest id st'
  end.

Definition filter (f : Filter) (id : JsString) (st : Store) : bool * Store :=
  let '(excluded, st1) := some (compiledExclude f) id st in
  if excluded then (false, st1)
  else if Nat.eqb (length (compiledInclude f)) 0 then (true, st1)
  else some (compiledInclude f) id st1.

(** The store after a sequence of earlier calls of the same filter. *)
Definition afterCalls (f : Filter) (history : list JsString) (st : Store) : Store :=
  fold_left (fun st id => snd (filter f id st)) history st.

(** A path matches an expression when [test] answers [true] on the
    expression as written, that is with [lastIndex] at [0]. *)
Definition matchesPattern (R : RegExp) (P : JsString) : bool :=
  match fst (RegExpBuiltinExec (setLastIndex R 0) P) with
  | Some _ => true
  | None => false
  end.

(** What a string pattern compiles to, as a predicate on paths. *)
Definition globMatches (pattern P : JsString) : option bool :=
  option_map (fun R => matchesPattern R P)
             (RegExpCreate (PatternCompiler.compiledSource pattern)).

(** * Result Policy: the [transform] hook *)

Record LintResult : Type := mkLintResult {
  filePath : JsString;
  messages : list JsString;
  errorCount : nat;
  warningCount : nat;
  output : option JsString
}.

(** What [error.message.includes(...)] finds on a thrown value: a
    string [message] to search, or nothing it can search ([null],
    [undefined], a thrown string or number, an object without a string
    [message]), in which case evaluating the expression itself throws a
    [TypeError]; [complaint] is the text the runtime gives that
    [TypeError] for this value. *)
Inductive MessageSlot : Type :=
| StringMessage (text : JsString)
| NoStringMessage (complaint : JsString).

(** A thrown value: its [message] slot and whatever else it carries.
    The lint engine throws [Error] objects, which have a string
    [message], but a collaborator may throw any value. *)
Record Error : Type := mkError {
  messageSlot : MessageSlot;
  properties : list (JsString * JsString)
}.

(** [new Error(message)] *)
Definition newError (msg : JsString) : Error := mkError (StringMessage msg) [].

(** [new TypeError(complaint)] *)
Definition newTypeError (complaint : JsString) : Error :=
  mkError (StringMessage complaint) [(js "name", js "TypeError")].

(** [error.message] of a value that has a string [message]; the
    [catch] block does not go through it, it reads [messageSlot]. *)
Definition message (e : Error) : JsString :=
  match messageSlot e with
  | StringMessage text => text
  | NoStringMessage _ => []
  end.

Inductive Completion (A : Type) : Type :=
| Normal (a : A)
| Throw (e : Error).
Arguments Normal {A} a.
Arguments Throw {A} e.

(** Persistent storage: file contents by path. *)
Definition Disk := list (JsString * JsString).

(** The calls the hook makes to its collaborators, in order. *)
Inductive Event : Type :=
| EvIsPathIgnored (id : JsString)
| EvLintText (code id : JsString)
| EvOutputFixes (results : list LintResult)
| EvLoadFormatter (name : JsString)
| EvFormat (results : list LintResult)
| EvConsoleLog (text : JsString)
| EvConsoleError (text : JsString) (error : Error).

Record World : Type := mkWorld {
  store : Store;
  disk : Disk;
  log : list Event
}.

(** The formatter object returned by [eslint.loadFormatter]. *)
Record Formatter : Type := mkFormatter {
  format : list LintResult -> Completion JsString
}.

(** The lint engine: each method answers or throws; [outputFixes]
    (the static [ESLint.outputFixes]) also writes to storage. *)
Record ESLint : Type := mkESLint {
  isPathIgnored : JsString -> Completion bool;
  lintText : JsString -> JsString -> Completion (list LintResult);
  loadFormatter : JsString -> Completion Formatter;
  outputFixes : list LintResult -> Disk -> Completion unit * Disk
}.

(** [pluginOptions] after the defaults have been merged in; [include]
    and [exclude] have gone into the filter.  [fix_] is the option
    [fix], a reserved word here. *)
Record PluginOptions : Type := mkPluginOptions {
  fix_ : bool;
  throwOnError : bool;
  throwOnWarning : bool;
  formatter : JsString
}.

Inductive JsNull : Type := null.

(** Computations of the hook: state, log and thrown errors. *)
Definition M (A : Type) : Type := World -> Completion A * World.

#[export] Instance M_ret : MRet M := fun A a w => (Normal a, w).

#[export] Instance M_bind : MBind M := fun A B k m w =>
  match m w with
  | (Normal a, w') => k a w'
  | (Throw e, w') => (Throw e, w')
  end.

#[export] Instance M_throw : MThrow Error M := fun A e w => (Throw e, w).

(** [try { body } catch (error) { handler }] *)
Definition tryCatch {A} (body : M A) (handler : Error -> M A) : M A :=
  fun w =>
    match body w with
    | (Normal a, w') => (Normal a, w')
    | (Throw e, w') => handler e w'
    end.

Definition emit (ev : Event) : M unit :=
  fun w => (Normal tt, mkWorld (store w) (disk w) (log w ++ [ev])).

(** A call to a collaborator that only answers. *)
Definition call {A} (ev : Event) (answer : Completion A) : M A :=
  fun w => (answer, mkWorld (store w) (disk w) (log w ++ [ev])).

Definition consoleLog (text : JsString) : M unit := emit (EvConsoleLog text).

Definition consoleError (text : JsString) (error : Error) : M unit :=
  emit (EvConsoleError text error).

(** Truthiness of a string. *)
Definition truthy (s : JsString) : bool :=
  match s with
  | [] => false
  | _ :: _ => true
  end.

Section Plugin.

Variable pluginOptions : PluginOptions.
Variable pathFilter : Filter.
Variable eslint : ESLint.

(** [process.cwd()] and [path.relative]. *)
Variable cwd : JsString.

Variable relative : JsString -> JsString -> JsString.

Definition callFilter (id : JsString) : M bool :=
  fun w =>
    let '(keep, st) := filter pathFilter id (store w) in
    (Normal keep, mkWorld st (disk w) (log w)).

Definition callOutputFixes (results : list LintResult) : M unit :=
  fun w =>
    let '(answer, d) := outputFixes eslint results (disk w) in
    (answer, mkWorld (store w) d (log w ++ [EvOutputFixes results])).

(** Lines 153-156: the condition under which the build is aborted. *)
Definition shouldAbort (result : LintResult) : bool :=
  let hasErrors := Nat.ltb 0 (errorCount result) in
  let hasWarnings := Nat.ltb 0 (warningCount result) in
  (hasErrors && throwOnError pluginOptions)
  || (hasWarnings && throwOnWarning pluginOptions).

(** Lines 157-169: the error thrown on abort. *)
Definition validationError (id : JsString) (result : LintResult) : Error :=
  let hasErrors := Nat.ltb 0 (errorCount result) in
  let hasWarnings := Nat.ltb 0 (warningCount result) in
  let relativePath := relative cwd id in
  let errors :=
    if hasErrors
    then numberToString (errorCount result) ++ js " error"
         ++ (if Nat.ltb 1 (errorCount result) then js "s" else [])
    else [] in
  let warnings :=
    if hasWarnings
    then numberToString (warningCount result) ++ js " warning"
         ++ (if Nat.ltb 1 (warningCount result) then js "s" else [])
    else [] in
  let messageParts :=
    (if truthy errors then [errors] else [])
    ++ (if truthy warnings then [warnings] else []) in
  newError (js "ESLint validation failed for " ++ relativePath ++ js ": "
            ++ join (js " and ") messageParts).

(** The body of the [try] block.  Its early [return null] and its
    falling through both lead to the hook answering [null]. *)
Definition tryBlock (code id : JsString) : M unit :=
  isIgnored ← call (EvIsPathIgnored id) (isPathIgnored eslint id);
  if isIgnored : bool then mret tt else
  results ← call (EvLintText code id) (lintText eslint code id);
  (if fix_ pluginOptions && Nat.ltb 0 (length results)
   then callOutputFixes results else mret tt);;
  match results with
  | [] => mret tt
  | result :: _ =>
      fmt ← call (EvLoadFormatter (formatter pluginOptions))
                 (loadFormatter eslint (formatter pluginOptions));
      text ← call (EvFormat results) (format fmt results);
      (if truthy text then consoleLog text else mret tt);;
      if shouldAbort result
      then mthrow (validationError id result)
      else mret tt
  end.

Definition validationMarker : JsString := js "ESLint validation failed".

(** The [catch] block.  Its condition [error.message.includes(...)] is
    evaluated first and throws a [TypeError] out of the block when the
    thrown value has no string [message]. *)
Definition catchBlock (id : JsString) (error : Error) : M unit :=
  match messageSlot error with
  | NoStringMessage complaint => mthrow (newTypeError complaint)
  | StringMessage text =>
      if negb (includes validationMarker text) then
        consoleError (js "Error running ESLint on " ++ id ++ js ":") error;;
        if throwOnError pluginOptions
        then mthrow (newError (js "ESLint plugin error: " ++ text))
        else mret tt
      else mthrow error
  end.

Definition transform (code id : JsString) : M JsNull :=
  keep ← callFilter id;
  if negb keep then mret null else
  tryCatch (tryBlock code id) (catchBlock id);;
  mret null.

End Plugin.

(** * The plugin factory and the [configResolved] hook *)

(** ** Regular-expression literals of the program, as syntax trees

    The literals of [defaultOptions] use a group, alternation and [?],
    which the text parser above does not read; they are given here as
    trees, with a backtracking matcher in continuation style.  The
    quantifier [*] is applied to single-character atoms only, as in
    the literals. *)

Module RegexTree.

Inductive re : Type :=
| Empty
| Atom (a : Regex.atom)
| Start
| End_
| Seq (r1 r2 : re)
| Alt (r1 r2 : re)
| Opt (r : re)
| Star (a : Regex.atom).

(** What remains to be matched: index and rest of the input to the end
    index of the match, or failure. *)
Definition Cont := nat -> JsString -> option nat.

Fixpoint run (r : re) (k : Cont) (index : nat) (rest : JsString) : option nat :=
  match r with
  | Empty => k index rest
  | Atom a =>
      match rest with
      | c :: rest' => if Regex.atomMatches a c then k (S index) rest' else None
      | [] => None
      end
  | Start => if Nat.eqb index 0 then k index rest else None
  | End_ =>
      match rest with
      | [] => k index rest
      | _ :: _ => None
      end
  | Seq r1 r2 => run r1 (run r2 k) index rest
  | Alt r1 r2 =>
      match run r1 k index rest with
      | Some e => Some e
      | None => run r2 k index rest
      end
  | Opt r1 =>
      match run r1 k index rest with
      | Some e => Some e
      | None => k index rest
      end
  | Star a =>
      (fix star (index : nat) (rest : JsString) {struct rest} : option nat :=
         match rest with
         | c :: rest' =>
             if Regex.atomMatches a c then
               match star (S index) rest' with
               | Some e => Some e
               | None => k index rest
               end
             else k index rest
         | [] => k index rest
         end) index rest
  end.

Definition matcherOf (r : re) : Regex.Matcher :=
  fun input index => run r (fun e _ => Some e) index (skipn index input).

(** A sequence of literal characters. *)
Definition lit (s : JsString) : re :=
  fold_right (fun c r => Seq (Atom (Regex.AChar c)) r) Empty s.

(** The object a literal without flags evaluates to. *)
Definition regexpLiteral (r : re) : RegExp := mkRegExp (matcherOf r) false false 0.

End RegexTree.

(** [/src\/.*\.(vue|jsx?|tsx?)$/] *)
Definition defaultIncludeTree : RegexTree.re :=
  let x := RegexTree.Atom (Regex.AChar "x") in
  RegexTree.Seq (RegexTree.lit (js "src/"))
    (RegexTree.Seq (RegexTree.Star Regex.ADot)
       (RegexTree.Seq (RegexTree.Atom (Regex.AChar "."))
          (RegexTree.Seq
             (RegexTree.Alt (RegexTree.lit (js "vue"))
                (RegexTree.Alt
                   (RegexTree.Seq (RegexTree.lit (js "js")) (RegexTree.Opt x))
                   (RegexTree.Seq (RegexTree.lit (js "ts")) (RegexTree.Opt x))))
             RegexTree.End_))).

(** The expressions of [defaultOptions]: [include], and the two
    elements of [exclude], [/node_modules/] and [/virtual:/]. *)
Definition defaultRegExps : list RegExp :=
  [RegexTree.regexpLiteral defaultIncludeTree;
   RegexTree.regexpLiteral (RegexTree.lit (js "node_modules"));
   RegexTree.regexpLiteral (RegexTree.lit (js "virtual:"))].

(** ** The [options] argument

    A key is absent ([None]) or present; a present flag is a boolean
    or [undefined], a present [include] or [exclude] is any of the
    values [handlePath] accepts, [undefined] among them. *)
Inductive JsFlag : Type :=
| FlagUndefined
| FlagBool (b : bool).

Definition flagTruthy (v : JsFlag) : bool :=
  match v with
  | FlagUndefined => false
  | FlagBool b => b
  end.

Record UserOptions : Type := mkUserOptions {
  optInclude : option PathOption;
  optExclude : option PathOption;
  optFix : option JsFlag;
  optThrowOnError : option JsFlag;
  optThrowOnWarning : option JsFlag;
  optFormatter : option JsString;
  optConfigFile : option JsString
}.

(** [vitePluginEslint()] and [vitePluginEslint({})] *)
Definition noOptions : UserOptions :=
  mkUserOptions None None None None None None None.

(** One key of [{...defaultOptions, ...options}]: the value of
    [options] wherever the key is present. *)
Definition spread {A} (default : A) (given : option A) : A :=
  match given with
  | Some v => v
  | None => default
  end.

(** What the factory's closure holds: the merged options, the
    [configFile] option, and the filter. *)
Record Plugin : Type := mkPlugin {
  options : PluginOptions;
  configFile : option JsString;
  pluginFilter : Filter
}.

(** [vitePluginEslint(options)], up to the hooks it returns.  The
    three expressions of [defaultOptions] are created on every call,
    whether or not [options] overrides them. *)
Definition vitePluginEslint (opts : UserOptions) (st : Store) : option (Plugin * Store) :=
  let n := length st in
  let st' := st ++ defaultRegExps in
  let include := spread (Single (PRegExp n)) (optInclude opts) in
  let exclude := spread (Array [PRegExp (n + 1); PRegExp (n + 2)]) (optExclude opts) in
  let pluginOptions :=
    mkPluginOptions
      (flagTruthy (spread (FlagBool false) (optFix opts)))
      (flagTruthy (spread (FlagBool true) (optThrowOnError opts)))
      (flagTruthy (spread (FlagBool false) (optThrowOnWarning opts)))
      (spread (js "stylish") (optFormatter opts)) in
  match createFilter include exclude st' with
  | Some (f, st'') => Some (mkPlugin pluginOptions (optConfigFile opts) f, st'')
  | None => None
  end.

(** The options object handed to [new ESLint]. *)
Record ESLintOptions : Type := mkESLintOptions {
  eslintFix : bool;
  overrideConfigFile : option JsString
}.

Section ConfigResolved.

(** [new ESLint(eslintOptions)], [process.cwd()] and [path.resolve]. *)
Variable newESLint : ESLintOptions -> Completion ESLint.
Variable cwd : JsString.
Variable resolve : JsString -> JsString -> JsString.

(** The [configResolved] hook; its answer is the engine it assigns to
    the variable [eslint] of the closure. *)
Definition configResolved (plugin : Plugin) : M ESLint :=
  let eslintOptions :=
    mkESLintOptions
      (fix_ (options plugin))
      (match configFile plugin with
       | Some file => if truthy file then Some (resolve cwd file) else None
       | None => None
       end) in
  tryCatch
    (fun w => (newESLint eslintOptions, w))
    (fun error =>
       consoleError (js "Failed to initialize ESLint:") error;;
       mthrow error).

End ConfigResolved.

(** * Notions used in the statements and proofs *)

Section CompilerNotions.

Import PatternCompiler Regex.

(** Whether a string begins with a star. *)
Definition headIsStar (s : JsString) : bool :=
  match s with
  | c :: _ => isStar c
  | [] => false
  end.

(** What one character of the pattern becomes in the compiled source. *)
Definition piece (c : codeUnit) : JsString :=
  if isStar c then js "\[^/]*" else escapeChar c.

(** Tokens and terms of one pattern character.  A star yields the
    escaped bracket, a start-of-input assertion, the separator and a
    starred closing bracket: the text [\[^/]*] read as a pattern. *)
Definition tokensOf (c : codeUnit) : list token :=
  if isStar c
  then [KAtom (AChar "["); KStart; KAtom (AChar "/"); KAtom (AChar "]"); KStar]
  else [KAtom (AChar c)].

Definition termsOf (c : codeUnit) : list term :=
  if isStar c
  then [TAtom (AChar "["); TAssertStart; TAtom (AChar "/"); TStar (AChar "]")]
  else [TAtom (AChar c)].

Definition headIsKStar (ks : list token) : bool :=
  match ks with
  | KStar :: _ => true
  | _ => false
  end.

Definition compiledTerms (p : JsString) : list term :=
  TAssertStart :: flat_map termsOf p ++ [TAssertEnd].

Definition literal (c : codeUnit) : term := TAtom (AChar c).

End CompilerNotions.

Definition patternsOf (path : PathOption) : list Pattern :=
  match path with
  | Undefined | Null => []
  | Single p => [p]
  | Array ps => ps
  end.

(** Every expression handed over by the caller is an object of the store. *)
Definition realPattern (st : Store) (p : Pattern) : Prop :=
  match p with
  | PString _ => True
  | PRegExp r => r < length st
  end.

Definition wellFormed (include exclude : PathOption) (st : Store) : Prop :=
  Forall (realPattern st) (patternsOf include ++ patternsOf exclude).

(** An expression without the [g] and [y] flags. *)
Definition stateless (R : RegExp) : Prop := global R = false /\ sticky R = false.

Definition statelessPattern (st : Store) (p : Pattern) : Prop :=
  match p with
  | PString _ => True
  | PRegExp r => exists R, st !! r = Some R /\ stateless R
  end.

Definition statelessConfig (include exclude : PathOption) (st : Store) : Prop :=
  Forall (statelessPattern st) (patternsOf include ++ patternsOf exclude).

(** An expression without the [y] flag. *)
Definition nonStickyPattern (st : Store) (p : Pattern) : Prop :=
  match p with
  | PString _ => True
  | PRegExp r => exists R, st !! r = Some R /\ sticky R = false
  end.

(** C3 as stated: whenever the path matches one of the compiled exclude
    expressions, the filter answers [false]. *)
Definition excludePrecedence (include exclude : PathOption) (st0 : Store) : Prop :=
  exists f st,
    createFilter include exclude st0 = Some (f, st) /\
    forall history P r R,
      In r (compiledExclude f) ->
      afterCalls f history st !! r = Some R ->
      matchesPattern R P = true ->
      fst (filter f P (afterCalls f history st)) = false.

(** C4 as stated: for a path that matches no exclude expression, an
    empty include set lets it through, and otherwise the answer is the
    disjunction over the include expressions. *)
Definition includeDecides (include exclude : PathOption) (st0 : Store) : Prop :=
  exists f st,
    createFilter include exclude st0 = Some (f, st) /\
    forall history P,
      (forall r R, In r (compiledExclude f) ->
                   afterCalls f history st !! r = Some R ->
                   matchesPattern R P = false) ->
      (patternsOf include = [] ->
       fst (filter f P (afterCalls f history st)) = true) /\
      (patternsOf include <> [] ->
       (fst (filter f P (afterCalls f history st)) = true <->
        exists r R, In r (compiledInclude f) /\
                    afterCalls f history st !! r = Some R /\
                    matchesPattern R P = true)).

(** C9 as stated: two successive calls on the same path agree, the
    answer does not depend on the calls made before, and a call leaves
    every expression as it found it. *)
Definition deterministic (include exclude : PathOption) (st0 : Store) : Prop :=
  exists f st,
    createFilter include exclude st0 = Some (f, st) /\
    forall history P,
      let st' := afterCalls f history st in
      fst (filter f P (snd (filter f P st'))) = fst (filter f P st') /\
      fst (filter f P st') = fst (filter f P st) /\
      snd (filter f P st') = st'.

(** The expression [/a/g]. *)
Definition globalA : RegExp :=
  mkRegExp (Regex.matcherOf [Regex.TAtom (Regex.AChar "a")]) true false 0.

(** The expression [/a/y]. *)
Definition stickyA : RegExp :=
  mkRegExp (Regex.matcherOf [Regex.TAtom (Regex.AChar "a")]) false true 0.

(** The answer of the filter when no expression carries state. *)
Definition matchesAt (st : Store) (P : JsString) (r : loc) : bool :=
  match st !! r with
  | Some R => matchesPattern R P
  | None => false
  end.

Definition pureFilter (f : Filter) (st : Store) (P : JsString) : bool :=
  if existsb (matchesAt st P) (compiledExclude f) then false
  else if Nat.eqb (length (compiledInclude f)) 0 then true
  else existsb (matchesAt st P) (compiledInclude f).

Definition statelessAt (st : Store) (r : loc) : Prop :=
  exists R, st !! r = Some R /\ stateless R.

Definition nonStickyAt (st : Store) (r : loc) : Prop :=
  exists R, st !! r = Some R /\ sticky R = false.

(** The expression [/node_modules/]. *)
Definition nodeModules : RegExp :=
  mkRegExp (Regex.matcherOf (map literal (js "node_modules"))) false false 0.

(** [ESLint.outputFixes] as the engine documents it: the [output] of
    each result that has one is written to the file of that result. *)
Definition writeFixes (results : list LintResult) (d : Disk) : Disk :=
  fold_left (fun d r =>
               match output r with
               | Some text => (filePath r, text) :: d
               | None => d
               end) results d.

(** A formatter in the manner of [stylish]: nothing for clean results. *)
Definition summaryFormatter : Formatter :=
  mkFormatter (fun results =>
    Normal (if forallb (fun r => Nat.eqb (errorCount r + warningCount r) 0) results
            then [] else js "problems found")).

(** An engine that ignores nothing and reports [results] for every file. *)
Definition reportingEngine (results : list LintResult) : ESLint :=
  mkESLint (fun _ => Normal false)
           (fun _ _ => Normal results)
           (fun _ => Normal summaryFormatter)
           (fun results d => (Normal tt, writeFixes results d)).

(** [path.relative] for a file directly under the working directory. *)
Definition stripRoot (from to : JsString) : JsString :=
  if startsWith from to then skipn (S (length from)) to else to.

Definition emptyWorld : World := mkWorld [] [] [].

Definition passAll : Filter := mkFilter [] [].

(** The summary of the counts in the words of the specification: the
    count and the noun, plural unless the count is one; a kind whose
    count is zero is omitted; errors first, joined with [and]. *)
Definition countPhrase (n : nat) (noun : JsString) : JsString :=
  numberToString n ++ js " " ++ noun ++ (if Nat.eqb n 1 then [] else js "s").

Definition countSummary (errors warnings : nat) : JsString :=
  match errors, warnings with
  | 0, 0 => []
  | S _, 0 => countPhrase errors (js "error")
  | 0, S _ => countPhrase warnings (js "warning")
  | S _, S _ =>
      countPhrase errors (js "error") ++ js " and "
      ++ countPhrase warnings (js "warning")
  end.

Definition addLog (evs : list Event) (w : World) : World :=
  mkWorld (store w) (disk w) (log w ++ evs).

(** The first argument of [console.error] in the [catch] block. *)
Definition errorBanner (id : JsString) : JsString :=
  js "Error running ESLint on " ++ id ++ js ":".

(** The error thrown in place of an engine error. *)
Definition pluginError (e : Error) : Error :=
  newError (js "ESLint plugin error: " ++ message e).

(** Nothing has been written to [console.error] between [w] and [w']. *)
Definition noConsoleError (w w' : World) : Prop :=
  forall banner e,
    In (EvConsoleError banner e) (log w') -> In (EvConsoleError banner e) (log w).

Section PolicyNotions.

Variable pluginOptions : PluginOptions.
Variable pathFilter : Filter.
Variable eslint : ESLint.

(** The world once the filter has been consulted. *)
Definition afterFilter (id : JsString) (w : World) : World :=
  mkWorld (snd (filter pathFilter id (store w))) (disk w) (log w).

(** A cycle in which the file passes the filter, is not ignored, is
    linted with [results], and in which fixing and formatting succeed. *)
Definition linted (w : World) (code id : JsString) (results : list LintResult)
           (fmt : Formatter) (text : JsString) : Prop :=
  fst (filter pathFilter id (store w)) = true /\
  isPathIgnored eslint id = Normal false /\
  lintText eslint code id = Normal results /\
  (fix_ pluginOptions = true ->
   fst (outputFixes eslint results (disk w)) = Normal tt) /\
  loadFormatter eslint (formatter pluginOptions) = Normal fmt /\
  format fmt results = Normal text.

(** The world at the end of such a cycle. *)
Definition lintedWorld (w : World) (code id : JsString) (results : list LintResult)
           (text : JsString) : World :=
  mkWorld (snd (filter pathFilter id (store w)))
          (if fix_ pluginOptions
           then snd (outputFixes eslint results (disk w)) else disk w)
          (log w ++ [EvIsPathIgnored id; EvLintText code id]
                 ++ (if fix_ pluginOptions then [EvOutputFixes results] else [])
                 ++ [EvLoadFormatter (formatter pluginOptions); EvFormat results]
                 ++ (if truthy text then [EvConsoleLog text] else [])).

(** An error thrown by a collaborator in the course of a cycle: by
    the first call of the cycle that does not answer. *)
Inductive engineFailure (w : World) (code id : JsString) : Error -> Prop :=
| ThrowsIsPathIgnored e :
    isPathIgnored eslint id = Throw e ->
    engineFailure w code id e
| ThrowsLintText e :
    isPathIgnored eslint id = Normal false ->
    lintText eslint code id = Throw e ->
    engineFailure w code id e
| ThrowsOutputFixes e results :
    isPathIgnored eslint id = Normal false ->
    lintText eslint code id = Normal results ->
    results <> [] ->
    fix_ pluginOptions = true ->
    fst (outputFixes eslint results (disk w)) = Throw e ->
    engineFailure w code id e
| ThrowsLoadFormatter e results :
    isPathIgnored eslint id = Normal false ->
    lintText eslint code id = Normal results ->
    results <> [] ->
    (fix_ pluginOptions = true ->
     fst (outputFixes eslint results (disk w)) = Normal tt) ->
    loadFormatter eslint (formatter pluginOptions) = Throw e ->
    engineFailure w code id e
| ThrowsFormat e results fmt :
    isPathIgnored eslint id = Normal false ->
    lintText eslint code id = Normal results ->
    results <> [] ->
    (fix_ pluginOptions = true ->
     fst (outputFixes eslint results (disk w)) = Normal tt) ->
    loadFormatter eslint (formatter pluginOptions) = Normal fmt ->
    format fmt results = Throw e ->
    engineFailure w code id e.

End PolicyNotions.

(** A file with one error and two warnings, one of them fixable. *)
Definition flagged : LintResult :=
  mkLintResult (js "/w/app.js") [js "no-unused-vars"] 1 2 (Some (js "fixed")).

(** A file without findings, and a file with five errors. *)
Definition clean : LintResult := mkLintResult (js "/w/app.js") [] 0 0 None.

Definition broken : LintResult :=
  mkLintResult (js "/w/lib.js") [js "no-undef"] 5 0 None.

(** An engine whose answer grows with the text it is given: no result
    for the empty text, [clean] for a text of one character, [clean]
    and then [broken] for a longer one. *)
Definition gradedEngine : ESLint :=
  mkESLint (fun _ => Normal false)
           (fun code _ =>
              Normal (match code with
                      | [] => []
                      | [_] => [clean]
                      | _ :: _ :: _ => [clean; broken]
                      end))
           (fun _ => Normal summaryFormatter)
           (fun results d => (Normal tt, writeFixes results d)).

(** A formatter that renders nothing. *)
Definition quietFormatter : Formatter := mkFormatter (fun _ => Normal []).

Definition quietEngine (results : list LintResult) : ESLint :=
  mkESLint (fun _ => Normal false)
           (fun _ _ => Normal results)
           (fun _ => Normal quietFormatter)
           (fun results d => (Normal tt, writeFixes results d)).

(** An engine whose [lintText] throws [e]. *)
Definition failingEngine (e : Error) : ESLint :=
  mkESLint (fun _ => Normal false)
           (fun _ _ => Throw e)
           (fun _ => Normal summaryFormatter)
           (fun results d => (Normal tt, writeFixes results d)).

(** The value [null], thrown: it has no [message] to read, and
    the runtime says so in these words. *)
Definition nullComplaint : JsString :=
  js "Cannot read properties of null (reading 'message')".

Definition thrownNull : Error := mkError (NoStringMessage nullComplaint) [].

Definition strict : PluginOptions := mkPluginOptions true true false (js "stylish").

Definition lenient : PluginOptions := mkPluginOptions false false false (js "stylish").

(** C2 as stated: the hook throws exactly under the policy, and
    otherwise answers [null] with the rendered findings printed. *)
Definition abortPolicyAsStated (pluginOptions : PluginOptions) (pathFilter : Filter)
           (eslint : ESLint) (cwd : JsString)
           (relative : JsString -> JsString -> JsString) : Prop :=
  forall w code id result rest fmt text,
    linted pluginOptions pathFilter eslint w code id (result :: rest) fmt text ->
    let out := transform pluginOptions pathFilter eslint cwd relative code id w in
    let policy :=
      (0 < errorCount result /\ throwOnError pluginOptions = true) \/
      (0 < warningCount result /\ throwOnWarning pluginOptions = true) in
    ((exists e, fst out = Throw e) <-> policy) /\
    (~ policy -> fst out = Normal null /\ In (EvConsoleLog text) (log (snd out))).

(** C5 as stated: every error thrown by a collaborator is logged, and
    is thrown on, wrapped, exactly when [throwOnError] is set. *)
Definition engineErrorsAsStated (pluginOptions : PluginOptions) (pathFilter : Filter)
           (eslint : ESLint) (cwd : JsString)
           (relative : JsString -> JsString -> JsString) : Prop :=
  forall w code id e,
    fst (filter pathFilter id (store w)) = true ->
    engineFailure pluginOptions eslint w code id e ->
    let out := transform pluginOptions pathFilter eslint cwd relative code id w in
    In (EvConsoleError (errorBanner id) e) (log (snd out)) /\
    fst out = (if throwOnError pluginOptions then Throw (pluginError e) else Normal null).

(** ** Notions for the further properties *)

(** The object [compilePattern] creates for a string pattern. *)
Definition compiledRegExp (pattern : JsString) : RegExp :=
  mkRegExp (Regex.matcherOf (compiledTerms pattern)) false false 0.

(** A freshly created expression: no flags, [lastIndex] at [0]. *)
Definition fresh (R : RegExp) : Prop :=
  global R = false /\ sticky R = false /\ lastIndex R = 0.

(** An array of string patterns, the documented form of the options. *)
Definition strings (ss : list JsString) : PathOption := Array (map PString ss).

(** [R'] is [R] up to [lastIndex], and is [R] itself when [R] has
    neither the [g] nor the [y] flag. *)
Definition kept (R R' : RegExp) : Prop :=
  RegExpMatcher R' = RegExpMatcher R /\
  global R' = global R /\
  sticky R' = sticky R /\
  (global R = false -> sticky R = false -> R' = R).

Definition storeKept (st st' : Store) : Prop :=
  length st' = length st /\
  forall r R, st !! r = Some R -> exists R', st' !! r = Some R' /\ kept R R'.

(** What a tree matches: [den r i s1 s2] says that [r], run at index
    [i], can consume [s1] when [s2] is what follows. *)
Fixpoint den (r : RegexTree.re) (i : nat) (s1 s2 : JsString) : Prop :=
  match r with
  | RegexTree.Empty => s1 = []
  | RegexTree.Atom a => exists c, s1 = [c] /\ Regex.atomMatches a c = true
  | RegexTree.Start => s1 = [] /\ i = 0
  | RegexTree.End_ => s1 = [] /\ s2 = []
  | RegexTree.Seq r1 r2 =>
      exists u v, s1 = u ++ v /\ den r1 i u (v ++ s2) /\ den r2 (i + length u) v s2
  | RegexTree.Alt r1 r2 => den r1 i s1 s2 \/ den r2 i s1 s2
  | RegexTree.Opt r1 => s1 = [] \/ den r1 i s1 s2
  | RegexTree.Star a => Forall (fun c => Regex.atomMatches a c = true) s1
  end.

(** The path has [part] somewhere inside it. *)
Definition contains (part P : JsString) : Prop :=
  exists before after, P = before ++ part ++ after.

(** The extensions of the default [include]. *)
Definition lintedExtensions : list JsString :=
  [js "vue"; js "js"; js "jsx"; js "ts"; js "tsx"].

(** The paths of the default [include]: [src/] somewhere, then any
    characters but line terminators, then a dot and one of the
    extensions at the very end. *)
Definition defaultIncluded (P : JsString) : Prop :=
  exists before middle ext,
    P = before ++ js "src/" ++ middle ++ js "." ++ ext /\
    Forall (fun c => Regex.isLineTerminator c = false) middle /\
    In ext lintedExtensions.

(** An engine that reports every file as ignored. *)
Definition ignoringEngine : ESLint :=
  mkESLint (fun _ => Normal true)
           (fun _ _ => Normal [])
           (fun _ => Normal summaryFormatter)
           (fun results d => (Normal tt, writeFixes results d)).

(** What [vitePluginEslint()] returns in an empty store. *)
Definition defaultPlugin : Plugin :=
  mkPlugin (mkPluginOptions false true false (js "stylish")) None (mkFilter [0] [1; 2]).

(** A world whose store holds the default expressions. *)
Definition defaultWorld : World := mkWorld defaultRegExps [] [].

(** A file with warnings only. *)
Definition warned : LintResult :=
  mkLintResult (js "/w/src/app.js") [js "no-console"] 0 3 None.

(** An [ESLint] constructor that accepts only options without a
    configuration file. *)
Definition pickyConstructor (o : ESLintOptions) : Completion ESLint :=
  match overrideConfigFile o with
  | None => Normal (reportingEngine [])
  | Some file => Throw (newError (js "Cannot read config file: " ++ file))
  end.

(** [path.resolve] for a relative file name. *)
Definition joinPath (dir file : JsString) : JsString := dir ++ js "/" ++ file.

(** * Properties of the Pattern Compiler *)

Section CompilerFacts.

Import PatternCompiler Regex.

Lemma existsb_eqb_false (c : codeUnit) (l : list codeUnit) :
  existsb (N.eqb c) l = false -> forall x, In x l -> N.eqb c x = false.
Proof.
  induction l as [|y l IH]; simpl; intros H x Hx; [contradiction|].
  apply orb_false_iff in H. destruct H as [H1 H2].
  destruct Hx as [->|Hx]; auto.
Qed.

Lemma existsb_eqb_true (c : codeUnit) (l : list codeUnit) :
  existsb (N.eqb c) l = true -> In c l.
Proof.
  intros H. apply existsb_exists in H. destruct H as [x [Hx Heq]].
  apply N.eqb_eq in Heq. now subst.
Qed.

Lemma special_is_syntax (c : codeUnit) : isSpecial c = true -> isSyntaxCharacter c = true.
Proof.
  intros H. apply existsb_eqb_true in H. unfold specialChars in H. simpl in H.
  repeat (destruct H as [<-|H]; [reflexivity|]). contradiction.
Qed.

Lemma star_is_special (c : codeUnit) : isStar c = true -> isSpecial c = true.
Proof. unfold isStar. intros H. apply N.eqb_eq in H. now subst. Qed.

Lemma not_special_not_star (c : codeUnit) : isSpecial c = false -> isStar c = false.
Proof.
  intros H. destruct (isStar c) eqn:E; [|reflexivity].
  apply star_is_special in E. congruence.
Qed.

Lemma escapeSpecial_head (p : JsString) : headIsStar (escapeSpecial p) = false.
Proof.
  destruct p as [|c p]; [reflexivity|]. simpl. unfold escapeChar.
  destruct (isSpecial c) eqn:E; simpl; [reflexivity|].
  now apply not_special_not_star.
Qed.

Lemma replaceStarStar_cons (c : codeUnit) (s : JsString) :
  isStar c && headIsStar s = false ->
  replaceStarStar (c :: s) = c :: replaceStarStar s.
Proof.
  intros H. destruct s as [|d s]; [reflexivity|].
  simpl in *. now rewrite H.
Qed.

(** The second pass never fires: after the first pass every star is
    preceded by a backslash, so no two stars are adjacent. *)
Lemma replaceStarStar_escapeSpecial (p : JsString) :
  replaceStarStar (escapeSpecial p) = escapeSpecial p.
Proof.
  induction p as [|c p IH]; [reflexivity|].
  change (escapeSpecial (c :: p)) with (escapeChar c ++ escapeSpecial p).
  pose proof (escapeSpecial_head p) as Hh.
  unfold escapeChar. destruct (isSpecial c) eqn:E; cbn [app].
  - rewrite replaceStarStar_cons by reflexivity.
    rewrite replaceStarStar_cons by (rewrite Hh; apply andb_false_r).
    now rewrite IH.
  - rewrite replaceStarStar_cons
      by (rewrite (not_special_not_star _ E); reflexivity).
    now rewrite IH.
Qed.

Lemma replaceStar_escapeChar (c : codeUnit) : replaceStar (escapeChar c) = piece c.
Proof.
  unfold piece, escapeChar, replaceStar, starChar.
  destruct (isSpecial c) eqn:E; simpl.
  - destruct (isStar c); reflexivity.
  - rewrite (not_special_not_star _ E). reflexivity.
Qed.

Lemma escaped_pieces (p : JsString) : escaped p = flat_map piece p.
Proof.
  unfold escaped. rewrite replaceStarStar_escapeSpecial.
  induction p as [|c p IH]; [reflexivity|].
  change (escapeSpecial (c :: p)) with (escapeChar c ++ escapeSpecial p).
  unfold replaceStar in *. rewrite flat_map_app, IH.
  change (flat_map starChar (escapeChar c)) with (replaceStar (escapeChar c)).
  now rewrite replaceStar_escapeChar.
Qed.

Lemma lex_plain (c : codeUnit) (rest : JsString) :
  isSpecial c = false ->
  lex (c :: rest) = option_map (cons (KAtom (AChar c))) (lex rest).
Proof.
  intros H. pose proof (existsb_eqb_false _ _ H) as F.
  unfold specialChars in F. simpl in F.
  simpl.
  rewrite !F by tauto. reflexivity.
Qed.

Lemma lex_escape (c : codeUnit) (rest : JsString) :
  isSpecial c = true ->
  lex ("\" :: c :: rest) = option_map (cons (KAtom (AChar c))) (lex rest).
Proof.
  intros H. cbn [lex]. change (N.eqb "\" "\") with true. cbv iota.
  now rewrite (special_is_syntax _ H).
Qed.

Lemma option_map_app {A} (l1 l2 : list A) (o : option (list A)) :
  option_map (app l1) (option_map (app l2) o) = option_map (app (l1 ++ l2)) o.
Proof. destruct o; simpl; [now rewrite app_assoc|reflexivity]. Qed.

Lemma star_piece : piece "*" = ["\"; "["; "^"; "/"; "]"; "*"].
Proof. reflexivity. Qed.

Lemma lex_piece (c : codeUnit) (rest : JsString) :
  lex (piece c ++ rest) = option_map (app (tokensOf c)) (lex rest).
Proof.
  unfold tokensOf. destruct (isStar c) eqn:Es.
  - unfold isStar in Es. apply N.eqb_eq in Es. subst c. rewrite star_piece.
    cbn [app]. rewrite lex_escape by reflexivity.
    change (lex ("^" :: "/" :: "]" :: "*" :: rest))
      with (option_map (cons KStart) (lex ("/" :: "]" :: "*" :: rest))).
    rewrite (lex_plain "/") by reflexivity.
    change (lex ("]" :: "*" :: rest))
      with (option_map (cons (KAtom (AChar "]"))) (option_map (cons KStar) (lex rest))).
    destruct (lex rest); reflexivity.
  - unfold piece, escapeChar. rewrite Es. destruct (isSpecial c) eqn:E.
    + cbn [app]. rewrite lex_escape by assumption. destruct (lex rest); reflexivity.
    + cbn [app]. rewrite lex_plain by assumption. destruct (lex rest); reflexivity.
Qed.

Lemma lex_pieces (p rest : JsString) :
  lex (flat_map piece p ++ rest) = option_map (app (flat_map tokensOf p)) (lex rest).
Proof.
  induction p as [|c p IH]; simpl.
  - destruct (lex rest); reflexivity.
  - rewrite <- app_assoc, lex_piece, IH. apply option_map_app.
Qed.

Lemma lex_compiledSource (p : JsString) :
  lex (compiledSource p) = Some (KStart :: flat_map tokensOf p ++ [KEnd]).
Proof.
  unfold compiledSource. rewrite escaped_pieces.
  change (lex ("^" :: flat_map piece p ++ ["$"]))
    with (option_map (cons KStart) (lex (flat_map piece p ++ ["$"]))).
  rewrite lex_pieces. reflexivity.
Qed.

Lemma group_atom (a : atom) (ks : list token) :
  headIsKStar ks = false ->
  group (KAtom a :: ks) = option_map (cons (TAtom a)) (group ks).
Proof. destruct ks as [|[] ks]; simpl; intros; reflexivity || discriminate. Qed.

Lemma tokensOf_head (c : codeUnit) (ks : list token) : headIsKStar (tokensOf c ++ ks) = false.
Proof. unfold tokensOf. destruct (isStar c); reflexivity. Qed.

Lemma tokens_head (p : JsString) : headIsKStar (flat_map tokensOf p ++ [KEnd]) = false.
Proof.
  destruct p as [|c p]; [reflexivity|]. simpl. rewrite <- app_assoc.
  apply tokensOf_head.
Qed.

Lemma group_tokens (p : JsString) :
  group (flat_map tokensOf p ++ [KEnd]) = Some (flat_map termsOf p ++ [TAssertEnd]).
Proof.
  induction p as [|c p IH]; [reflexivity|].
  pose proof (tokens_head p) as Hh.
  simpl. rewrite <- app_assoc.
  assert (Ht : tokensOf c = tokensOf c) by reflexivity.
  assert (Hs : termsOf c = termsOf c) by reflexivity.
  unfold tokensOf at 2 in Ht. unfold termsOf at 2 in Hs.
  destruct (isStar c); rewrite Ht, Hs.
  - cbn [app group]. rewrite IH. reflexivity.
  - cbn [app]. rewrite group_atom by assumption. rewrite IH. reflexivity.
Qed.

(** [new RegExp] accepts every compiled source, and reads it as follows. *)
Lemma parse_compiledSource (p : JsString) :
  parse (compiledSource p) = Some (TAssertStart :: flat_map termsOf p ++ [TAssertEnd]).
Proof.
  unfold parse. rewrite lex_compiledSource. cbn [group].
  rewrite group_tokens. reflexivity.
Qed.

Lemma RegExpCreate_compiledSource (p : JsString) :
  RegExpCreate (compiledSource p)
  = Some (mkRegExp (matcherOf (compiledTerms p)) false false 0).
Proof. unfold RegExpCreate. now rewrite parse_compiledSource. Qed.

(** *** The matcher on compiled patterns *)

Lemma termsOf_no_star (p : JsString) :
  ~ In "*" p -> flat_map termsOf p = map literal p.
Proof.
  induction p as [|c p IH]; intros H; [reflexivity|].
  simpl in *. rewrite IH by tauto.
  unfold termsOf, isStar. destruct (N.eqb_spec c "*") as [->|_]; [tauto|reflexivity].
Qed.

Lemma literal_match_self (p : JsString) (i : nat) :
  matchTerms (map literal p ++ [TAssertEnd]) i p = Some (i + length p).
Proof.
  revert i. induction p as [|c p IH]; intros i; simpl.
  - f_equal. lia.
  - rewrite N.eqb_refl, IH. f_equal. lia.
Qed.

Lemma literal_match_other (p rest : JsString) (i : nat) :
  rest <> p -> matchTerms (map literal p ++ [TAssertEnd]) i rest = None.
Proof.
  revert rest i. induction p as [|c p IH]; intros rest i H; simpl.
  - destruct rest; [congruence|reflexivity].
  - destruct rest as [|d rest]; [reflexivity|].
    destruct (N.eqb_spec c d) as [->|_]; [|reflexivity].
    apply IH. congruence.
Qed.

(** A term sequence that fails everywhere still fails everywhere after
    any prefix is put in front of it. *)
Lemma matchTerms_dead_suffix (ts : list term) :
  (forall i rest, matchTerms ts i rest = None) ->
  forall ts1 i rest, matchTerms (ts1 ++ ts) i rest = None.
Proof.
  intros Hdead. induction ts1 as [|t ts1 IH]; intros i rest; [apply Hdead|].
  destruct t as [| |a|a]; simpl.
  - destruct (Nat.eqb i 0); auto.
  - destruct rest; auto.
  - destruct rest as [|c rest]; [reflexivity|]. destruct (atomMatches a c); auto.
  - revert i. induction rest as [|c rest IHr]; intros i; [apply IH|].
    destruct (atomMatches a c); [|apply IH].
    rewrite IHr. apply IH.
Qed.

(** An assertion of start-of-input placed after a character can never
    hold: at least one character has been consumed. *)
Lemma matchTerms_start_after_atom (a : atom) (ts : list term) (i : nat) (rest : JsString) :
  matchTerms (TAtom a :: TAssertStart :: ts) i rest = None.
Proof.
  simpl. destruct rest as [|c rest]; [reflexivity|].
  destruct (atomMatches a c); reflexivity.
Qed.

Lemma matchTerms_star_pattern (p : JsString) (i : nat) (rest : JsString) :
  In "*" p -> matchTerms (flat_map termsOf p ++ [TAssertEnd]) i rest = None.
Proof.
  intros H. apply in_split in H. destruct H as [p1 [p2 ->]].
  rewrite flat_map_app. simpl. rewrite <- !app_assoc.
  apply matchTerms_dead_suffix. intros j r.
  change (termsOf "*") with
    [TAtom (AChar "["); TAssertStart; TAtom (AChar "/"); TStar (AChar "]")].
  apply matchTerms_start_after_atom.
Qed.

Lemma execLoop_none (m : Matcher) (y : bool) (input : JsString) (fuel i : nat) :
  (forall j, i <= j -> m input j = None) -> execLoop m y input fuel i = None.
Proof.
  revert i. induction fuel as [|fuel IH]; intros i H; simpl; [reflexivity|].
  rewrite H by lia. destruct y; [reflexivity|].
  apply IH. intros j Hj. apply H. lia.
Qed.

(** A compiled pattern is anchored: its matcher can only succeed at
    index [0], and [test] amounts to one run of the matcher there. *)
Lemma exec_compiled (p input : JsString) :
  fst (RegExpBuiltinExec (mkRegExp (matcherOf (compiledTerms p)) false false 0) input)
  = matchTerms (flat_map termsOf p ++ [TAssertEnd]) 0 input.
Proof.
  unfold RegExpBuiltinExec. cbn [global sticky orb RegExpMatcher lastIndex].
  rewrite Nat.sub_0_r. cbn [execLoop].
  change (matcherOf (compiledTerms p) input 0)
    with (matchTerms (flat_map termsOf p ++ [TAssertEnd]) 0 input).
  destruct (matchTerms (flat_map termsOf p ++ [TAssertEnd]) 0 input) as [e|]; [reflexivity|].
  rewrite execLoop_none; [reflexivity|].
  intros j Hj. unfold matcherOf, compiledTerms. cbn [matchTerms].
  destruct j; [lia|reflexivity].
Qed.

Lemma globMatches_compiled (p input : JsString) :
  globMatches p input
  = Some (match matchTerms (flat_map termsOf p ++ [TAssertEnd]) 0 input with
          | Some _ => true
          | None => false
          end).
Proof.
  unfold globMatches. rewrite RegExpCreate_compiledSource. cbn [option_map].
  unfold matchesPattern.
  change (setLastIndex (mkRegExp (matcherOf (compiledTerms p)) false false 0) 0)
    with (mkRegExp (matcherOf (compiledTerms p)) false false 0).
  now rewrite exec_compiled.
Qed.

(** Every pattern with a star in it compiles to an expression that
    matches no path at all. *)
Lemma star_pattern_matches_nothing (p input : JsString) :
  In "*" p -> globMatches p input = Some false.
Proof.
  intros H. rewrite globMatches_compiled.
  now rewrite matchTerms_star_pattern.
Qed.

End CompilerFacts.

(** * Properties of the Path Filter *)

Section FilterFacts.

Lemma compilePattern_some (p : Pattern) (st : Store) :
  exists r ext, compilePattern p st = Some (r, st ++ ext).
Proof.
  destruct p as [s|r]; simpl.
  - rewrite RegExpCreate_compiledSource. eauto.
  - exists r, []. now rewrite app_nil_r.
Qed.

Lemma statelessAt_app (st ext : Store) (r : loc) :
  statelessAt st r -> statelessAt (st ++ ext) r.
Proof.
  intros [R [H1 H2]]. exists R. split; [|assumption].
  rewrite lookup_app_l; [assumption|]. now apply lookup_lt_Some in H1.
Qed.

Lemma compilePattern_stateless (p : Pattern) (st st' : Store) (r : loc) :
  compilePattern p st = Some (r, st') ->
  statelessPattern st p ->
  statelessAt st' r /\ (forall r0, statelessAt st r0 -> statelessAt st' r0).
Proof.
  destruct p as [s|r']; simpl; intros H Hp.
  - rewrite RegExpCreate_compiledSource in H. injection H as <- <-. split.
    + eexists. split.
      * rewrite lookup_app_r by lia. rewrite Nat.sub_diag. reflexivity.
      * split; reflexivity.
    + intros r0. apply statelessAt_app.
  - injection H as <- <-. split; [exact Hp|auto].
Qed.

Lemma compileAll_some (ps : list Pattern) (st : Store) :
  exists rs st', compileAll ps st = Some (rs, st') /\ length rs = length ps.
Proof.
  revert st. induction ps as [|p ps IH]; intros st; simpl; [eauto|].
  destruct (compilePattern_some p st) as [r [ext ->]].
  destruct (IH (st ++ ext)) as [rs [st' [-> Hl]]].
  exists (r :: rs), st'. simpl. auto.
Qed.

Lemma compileAll_stateless (ps : list Pattern) (st st' : Store) (rs : list loc) :
  compileAll ps st = Some (rs, st') ->
  Forall (statelessPattern st) ps ->
  Forall (statelessAt st') rs /\ (forall r0, statelessAt st r0 -> statelessAt st' r0).
Proof.
  revert st rs. induction ps as [|p ps IH]; intros st rs H Hps; simpl in H.
  - injection H as <- <-. auto.
  - destruct (compilePattern p st) as [[r st1]|] eqn:E1; [|discriminate].
    destruct (compileAll ps st1) as [[rs' st2]|] eqn:E2; [|discriminate].
    injection H as <- <-.
    apply Forall_cons_iff in Hps. destruct Hps as [Hp Hps].
    destruct (compilePattern_stateless _ _ _ _ E1 Hp) as [Hr Hmono].
    assert (Hps1 : Forall (statelessPattern st1) ps).
    { eapply Forall_impl; [exact Hps|]. intros [s|r0]; simpl; [auto|apply Hmono]. }
    destruct (IH _ _ E2 Hps1) as [Hrs Hmono2]. split; auto.
Qed.

Lemma handlePath_compileAll (path : PathOption) (st : Store) :
  handlePath path st = compileAll (patternsOf path) st.
Proof. destruct path; reflexivity. Qed.

(** [createFilter] never throws. *)
Lemma createFilter_some (include exclude : PathOption) (st0 : Store) :
  exists f st,
    createFilter include exclude st0 = Some (f, st) /\
    length (compiledInclude f) = length (patternsOf include) /\
    length (compiledExclude f) = length (patternsOf exclude).
Proof.
  unfold createFilter. rewrite !handlePath_compileAll.
  destruct (compileAll_some (patternsOf include) st0) as [ci [st1 [-> Hi]]].
  rewrite handlePath_compileAll.
  destruct (compileAll_some (patternsOf exclude) st1) as [ce [st2 [-> He]]].
  eauto.
Qed.

Lemma createFilter_stateless (include exclude : PathOption) (st0 st : Store) (f : Filter) :
  createFilter include exclude st0 = Some (f, st) ->
  statelessConfig include exclude st0 ->
  Forall (statelessAt st) (compiledInclude f) /\
  Forall (statelessAt st) (compiledExclude f).
Proof.
  unfold createFilter, statelessConfig. rewrite !handlePath_compileAll.
  intros H Hc. apply Forall_app in Hc. destruct Hc as [Hi He].
  destruct (compileAll (patternsOf include) st0) as [[ci st1]|] eqn:E1; [|discriminate].
  rewrite handlePath_compileAll in H.
  destruct (compileAll (patternsOf exclude) st1) as [[ce st2]|] eqn:E2; [|discriminate].
  injection H as <- <-. simpl.
  destruct (compileAll_stateless _ _ _ _ E1 Hi) as [Hci Hm1].
  assert (He1 : Forall (statelessPattern st1) (patternsOf exclude)).
  { eapply Forall_impl; [exact He|]. intros [s|r0]; simpl; [auto|apply Hm1]. }
  destruct (compileAll_stateless _ _ _ _ E2 He1) as [Hce Hm2].
  split; [|assumption].
  eapply Forall_impl; [exact Hci|]. auto.
Qed.

(** Without the [g] and [y] flags, [test] neither reads nor writes
    [lastIndex]. *)
Lemma exec_stateless (R : RegExp) (P : JsString) :
  stateless R ->
  RegExpBuiltinExec R P = (fst (RegExpBuiltinExec (setLastIndex R 0) P), R).
Proof.
  destruct R as [m g y li]. intros [Hg Hy]. simpl in Hg, Hy. subst g y.
  unfold RegExpBuiltinExec, setLastIndex.
  cbn [global sticky RegExpMatcher lastIndex orb].
  destruct (execLoop m false P (S (length P) - 0) 0); reflexivity.
Qed.

Lemma test_stateless (st : Store) (r : loc) (R : RegExp) (P : JsString) :
  st !! r = Some R -> stateless R -> test r P st = (matchesPattern R P, st).
Proof.
  intros Hr Hs. unfold test, matchesPattern. rewrite Hr.
  rewrite (exec_stateless _ _ Hs).
  rewrite list_insert_id by assumption. reflexivity.
Qed.

Lemma some_stateless (st : Store) (rs : list loc) (P : JsString) :
  Forall (statelessAt st) rs -> some rs P st = (existsb (matchesAt st P) rs, st).
Proof.
  induction rs as [|r rs IH]; intros H; simpl; [reflexivity|].
  apply Forall_cons_iff in H. destruct H as [[R [Hr Hs]] Hrs].
  rewrite (test_stateless _ _ _ _ Hr Hs). unfold matchesAt at 1. rewrite Hr.
  destruct (matchesPattern R P); simpl; [reflexivity|]. now apply IH.
Qed.

Lemma filter_stateless (f : Filter) (st : Store) (P : JsString) :
  Forall (statelessAt st) (compiledInclude f) ->
  Forall (statelessAt st) (compiledExclude f) ->
  filter f P st = (pureFilter f st P, st).
Proof.
  intros Hi He. unfold filter, pureFilter.
  rewrite (some_stateless _ _ _ He).
  destruct (existsb (matchesAt st P) (compiledExclude f)); [reflexivity|].
  destruct (Nat.eqb (length (compiledInclude f)) 0); [reflexivity|].
  apply some_stateless, Hi.
Qed.

Lemma afterCalls_stateless (f : Filter) (st : Store) (history : list JsString) :
  Forall (statelessAt st) (compiledInclude f) ->
  Forall (statelessAt st) (compiledExclude f) ->
  afterCalls f history st = st.
Proof.
  intros Hi He. unfold afterCalls.
  induction history as [|id history IH]; simpl; [reflexivity|].
  now rewrite (filter_stateless _ _ _ Hi He).
Qed.

Lemma existsb_matchesAt (st : Store) (P : JsString) (rs : list loc) :
  existsb (matchesAt st P) rs = true <->
  exists r R, In r rs /\ st !! r = Some R /\ matchesPattern R P = true.
Proof.
  rewrite existsb_exists. unfold matchesAt. split.
  - intros [r [Hin H]]. destruct (st !! r) as [R|] eqn:E; [|discriminate]. eauto.
  - intros [r [R [Hin [Hr H]]]]. exists r. now rewrite Hr.
Qed.

(** Whatever the flags: if the [test] of some expression of the list
    would succeed in the current store, [some] answers [true].  The
    expressions tried before it have failed, and a failed [test] writes
    only to its own object. *)
Lemma some_hit (rs : list loc) (P : JsString) (st : Store) (r : loc) (R : RegExp) :
  In r rs ->
  st !! r = Some R ->
  fst (RegExpBuiltinExec R P) <> None ->
  fst (some rs P st) = true.
Proof.
  revert st. induction rs as [|r0 rs IH]; intros st Hin Hr Hm; [contradiction|].
  simpl. unfold test. destruct (st !! r0) as [R0|] eqn:E0.
  - destruct (RegExpBuiltinExec R0 P) as [[e|] R0'] eqn:Ex; [reflexivity|].
    assert (Hne : r0 <> r).
    { intros ->. rewrite Hr in E0. injection E0 as ->.
      rewrite Ex in Hm. now apply Hm. }
    apply IH.
    + destruct Hin as [Heq|Hin]; [congruence|assumption].
    + rewrite list_lookup_insert_ne by assumption. exact Hr.
    + exact Hm.
  - assert (Hne : r0 <> r) by congruence.
    apply IH; [destruct Hin as [Heq|Hin]; [congruence|assumption]|exact Hr|exact Hm].
Qed.

Lemma exclude_hit_rejects (f : Filter) (P : JsString) (st : Store) (r : loc) (R : RegExp) :
  In r (compiledExclude f) ->
  st !! r = Some R ->
  fst (RegExpBuiltinExec R P) <> None ->
  fst (filter f P st) = false.
Proof.
  intros Hin Hr Hm. unfold filter.
  pose proof (some_hit _ _ _ _ _ Hin Hr Hm) as Hs.
  destruct (some (compiledExclude f) P st) as [hit st1]. simpl in Hs. now subst hit.
Qed.

Lemma compilePattern_extends (p : Pattern) (st st' : Store) (r : loc) :
  compilePattern p st = Some (r, st') ->
  exists ext,
    st' = st ++ ext /\ Forall fresh ext /\
    (forall r0, p = PRegExp r0 -> r = r0 /\ ext = []).
Proof.
  destruct p as [s|r0]; simpl; intros H.
  - rewrite RegExpCreate_compiledSource in H. injection H as <- <-.
    eexists. split; [reflexivity|]. split.
    + repeat constructor.
    + intros r0 Hr0. discriminate Hr0.
  - injection H as <- <-. exists []. rewrite app_nil_r. split; [reflexivity|].
    split; [constructor|]. intros r1 Hr1. injection Hr1 as ->. auto.
Qed.

Lemma compileAll_extends (ps : list Pattern) (st st' : Store) (rs : list loc) :
  compileAll ps st = Some (rs, st') ->
  exists ext,
    st' = st ++ ext /\ Forall fresh ext /\
    (forall i r0, ps !! i = Some (PRegExp r0) -> rs !! i = Some r0).
Proof.
  revert st rs. induction ps as [|p ps IH]; intros st rs H; simpl in H.
  - injection H as <- <-. exists []. rewrite app_nil_r.
    split; [reflexivity|]. split; [constructor|]. intros i r0 Hi. discriminate Hi.
  - destruct (compilePattern p st) as [[r st1]|] eqn:E1; [|discriminate].
    destruct (compileAll ps st1) as [[rs' st2]|] eqn:E2; [|discriminate].
    injection H as <- <-.
    destruct (compilePattern_extends _ _ _ _ E1) as [ext1 [-> [F1 Hr]]].
    destruct (IH _ _ E2) as [ext2 [-> [F2 Hrs]]].
    exists (ext1 ++ ext2). rewrite app_assoc. split; [reflexivity|].
    split; [apply Forall_app; auto|].
    intros [|i] r0 Hi; simpl in *.
    + injection Hi as ->. destruct (Hr r0 eq_refl) as [-> _]. reflexivity.
    + now apply Hrs.
Qed.

Lemma kept_refl (R : RegExp) : kept R R.
Proof. repeat split. Qed.

Lemma kept_trans (R1 R2 R3 : RegExp) : kept R1 R2 -> kept R2 R3 -> kept R1 R3.
Proof.
  intros (M1 & G1 & Y1 & S1) (M2 & G2 & Y2 & S2). repeat split; try congruence.
  intros Hg Hy. rewrite <- (S1 Hg Hy). apply S2; congruence.
Qed.

Lemma storeKept_refl (st : Store) : storeKept st st.
Proof. split; [reflexivity|]. intros r R H. exists R. split; [assumption|apply kept_refl]. Qed.

Lemma storeKept_trans (st1 st2 st3 : Store) :
  storeKept st1 st2 -> storeKept st2 st3 -> storeKept st1 st3.
Proof.
  intros [L1 K1] [L2 K2]. split; [congruence|].
  intros r R H. destruct (K1 _ _ H) as [R' [H' Hk]].
  destruct (K2 _ _ H') as [R'' [H'' Hk']]. exists R''. split; [assumption|].
  eapply kept_trans; eassumption.
Qed.

Lemma exec_kept (R : RegExp) (P : JsString) : kept R (snd (RegExpBuiltinExec R P)).
Proof.
  destruct R as [m g y li]. unfold RegExpBuiltinExec, setLastIndex.
  cbn [global sticky RegExpMatcher lastIndex].
  destruct (execLoop m y P _ _); cbn [snd]; destruct (g || y) eqn:E;
    repeat split; cbn [global sticky]; intros -> ->; discriminate E.
Qed.

Lemma test_kept (r : loc) (P : JsString) (st : Store) : storeKept st (snd (test r P st)).
Proof.
  unfold test. destruct (st !! r) as [R|] eqn:E; [|apply storeKept_refl].
  pose proof (exec_kept R P) as Hk.
  destruct (RegExpBuiltinExec R P) as [res R']. cbn [snd] in *. split.
  - apply length_insert.
  - intros r0 R0 H0. destruct (Nat.eq_dec r r0) as [->|Hne].
    + exists R'. split.
      * apply list_lookup_insert_eq. now apply lookup_lt_Some in H0.
      * assert (HR : Some R = Some R0)
          by (transitivity (st !! r0); [symmetry; exact E|exact H0]).
        injection HR as <-. exact Hk.
    + exists R0. split; [|apply kept_refl].
      now rewrite list_lookup_insert_ne.
Qed.

Lemma some_kept (rs : list loc) (P : JsString) (st : Store) :
  storeKept st (snd (some rs P st)).
Proof.
  revert st. induction rs as [|r rs IH]; intros st; simpl; [apply storeKept_refl|].
  pose proof (test_kept r P st) as Ht.
  destruct (test r P st) as [hit st1]. cbn [snd] in Ht.
  destruct hit; [exact Ht|]. eapply storeKept_trans; [exact Ht|apply IH].
Qed.

Lemma filter_kept (f : Filter) (P : JsString) (st : Store) :
  storeKept st (snd (filter f P st)).
Proof.
  unfold filter. pose proof (some_kept (compiledExclude f) P st) as He.
  destruct (some (compiledExclude f) P st) as [excluded st1]. cbn [snd] in He.
  destruct excluded; [exact He|].
  destruct (Nat.eqb _ 0); [exact He|].
  eapply storeKept_trans; [exact He|apply some_kept].
Qed.

Lemma afterCalls_kept (f : Filter) (history : list JsString) (st : Store) :
  storeKept st (afterCalls f history st).
Proof.
  unfold afterCalls. revert st.
  induction history as [|id history IH]; intros st; cbn [fold_left];
    [apply storeKept_refl|].
  eapply storeKept_trans; [apply filter_kept|apply IH].
Qed.

Lemma execLoop_some_iff (m : Regex.Matcher) (P : JsString) (fuel i : nat) :
  (exists e, execLoop m false P fuel i = Some e) <->
  exists j, i <= j < i + fuel /\ exists e, m P j = Some e.
Proof.
  revert i. induction fuel as [|fuel IH]; intros i; cbn [execLoop].
  - split; [intros [e He]; discriminate|intros (j & Hj & _); lia].
  - destruct (m P i) as [e0|] eqn:E0.
    + split; [intros _; exists i; split; [lia|eauto]|eauto].
    + rewrite IH. split.
      * intros (j & Hj & He). exists j. split; [lia|exact He].
      * intros (j & Hj & He). exists j. split; [|exact He].
        destruct (Nat.eq_dec j i) as [->|Hne]; [|lia].
        destruct He as [e He]. congruence.
Qed.

(** Looking back through [storeKept]: an object of the later store is
    the image of the object at the same location. *)
Lemma storeKept_lookup (st st' : Store) (r : loc) (R' : RegExp) :
  storeKept st st' -> st' !! r = Some R' -> exists R, st !! r = Some R /\ kept R R'.
Proof.
  intros [L K] H'. destruct (st !! r) as [R|] eqn:E.
  - destruct (K _ _ E) as [R'' [H'' Hk]]. exists R. split; [reflexivity|].
    assert (HR : Some R'' = Some R')
      by (transitivity (st' !! r); [symmetry; exact H''|exact H']).
    injection HR as <-. exact Hk.
  - apply lookup_ge_None in E. apply lookup_lt_Some in H'. lia.
Qed.

(** An expression without flags is the same object afterwards. *)
Lemma storeKept_statelessAt (st st' : Store) (r : loc) :
  storeKept st st' -> statelessAt st r -> statelessAt st' r /\ st' !! r = st !! r.
Proof.
  intros [L K] [R [Hr [Hg Hy]]]. destruct (K _ _ Hr) as [R' [Hr' (_ & _ & _ & E)]].
  rewrite (E Hg Hy) in Hr'. split.
  - exists R. split; [exact Hr'|split; assumption].
  - transitivity (Some R); [exact Hr'|symmetry; exact Hr].
Qed.

Lemma storeKept_nonStickyAt (st st' : Store) (r : loc) :
  storeKept st st' -> nonStickyAt st r -> nonStickyAt st' r.
Proof.
  intros [L K] [R [Hr Hy]]. destruct (K _ _ Hr) as [R' [Hr' (_ & _ & Y & _)]].
  exists R'. split; [exact Hr'|congruence].
Qed.

(** Matching, as defined on the expression as written, does not depend
    on [lastIndex]. *)
Lemma kept_matchesPattern (R R' : RegExp) (P : JsString) :
  kept R R' -> matchesPattern R' P = matchesPattern R P.
Proof.
  destruct R as [m g y li], R' as [m' g' y' li']. intros (M & G & Y & _).
  cbn in M, G, Y. subst m' g' y'. reflexivity.
Qed.

(** An expression without the [y] flag that does not match a path from
    its beginning does not match it from any [lastIndex]. *)
Lemma exec_nonSticky_miss (R : RegExp) (P : JsString) :
  sticky R = false -> matchesPattern R P = false -> fst (RegExpBuiltinExec R P) = None.
Proof.
  destruct R as [m g y li]. cbn [sticky]. intros -> Hm.
  unfold matchesPattern, RegExpBuiltinExec, setLastIndex in Hm.
  cbn [global sticky RegExpMatcher lastIndex] in Hm.
  assert (H0 : execLoop m false P (S (length P)) 0 = None).
  { replace (if g || false then 0 else 0) with 0 in Hm by (destruct g; reflexivity).
    rewrite Nat.sub_0_r in Hm.
    destruct (execLoop m false P (S (length P)) 0); [discriminate Hm|reflexivity]. }
  unfold RegExpBuiltinExec. cbn [global sticky RegExpMatcher lastIndex].
  destruct (execLoop m false P (S (length P) - (if g || false then li else 0))
                     (if g || false then li else 0)) as [e|] eqn:E; [|reflexivity].
  exfalso.
  assert (Hex : exists e, execLoop m false P (S (length P)) 0 = Some e).
  { apply execLoop_some_iff.
    destruct (proj1 (execLoop_some_iff _ _ _ _) (ex_intro _ e E)) as (j & Hj & He).
    exists j. split; [lia|exact He]. }
  destruct Hex as [e' He']. congruence.
Qed.

(** A list of expressions without the [y] flag, none of which matches
    the path: [some] answers [false] whatever their [lastIndex]. *)
Lemma some_miss (rs : list loc) (P : JsString) (st : Store) :
  (forall r R, In r rs -> st !! r = Some R ->
               sticky R = false /\ matchesPattern R P = false) ->
  fst (some rs P st) = false.
Proof.
  revert st. induction rs as [|r rs IH]; intros st H; [reflexivity|].
  cbn [some]. pose proof (test_kept r P st) as Hk. unfold test in *.
  destruct (st !! r) as [R|] eqn:E.
  - destruct (H r R (or_introl eq_refl) E) as [Hy Hm].
    pose proof (exec_nonSticky_miss _ _ Hy Hm) as Hx.
    destruct (RegExpBuiltinExec R P) as [res R']. cbn [fst snd] in *. subst res.
    apply IH. intros r0 R0 Hin H0.
    destruct (storeKept_lookup _ _ _ _ Hk H0) as [R1 [H1 K1]].
    destruct (H r0 R1 (or_intror Hin) H1) as [Hy1 Hm1].
    destruct K1 as (M & G & Y & S'). split; [congruence|].
    rewrite (kept_matchesPattern R1 R0); [exact Hm1|repeat split; assumption].
  - apply IH. intros r0 R0 Hin H0. apply (H r0 R0); [now right|exact H0].
Qed.

Lemma nonStickyAt_app (st ext : Store) (r : loc) :
  nonStickyAt st r -> nonStickyAt (st ++ ext) r.
Proof.
  intros [R [H1 H2]]. exists R. split; [|assumption].
  rewrite lookup_app_l; [assumption|]. now apply lookup_lt_Some in H1.
Qed.

Lemma compileAll_nonSticky (ps : list Pattern) (st st' : Store) (rs : list loc) :
  compileAll ps st = Some (rs, st') ->
  Forall (nonStickyPattern st) ps ->
  Forall (nonStickyAt st') rs.
Proof.
  revert st rs. induction ps as [|p ps IH]; intros st rs H Hps; simpl in H.
  - injection H as <- <-. constructor.
  - destruct (compilePattern p st) as [[r st1]|] eqn:E1; [|discriminate].
    destruct (compileAll ps st1) as [[rs' st2]|] eqn:E2; [|discriminate].
    injection H as <- <-.
    apply Forall_cons_iff in Hps. destruct Hps as [Hp Hps].
    destruct (compilePattern_extends _ _ _ _ E1) as [ext1 [-> [F1 Hr]]].
    destruct (compileAll_extends _ _ _ _ E2) as [ext2 [-> _]].
    constructor.
    + apply nonStickyAt_app. destruct p as [s|r0].
      * simpl in E1. rewrite RegExpCreate_compiledSource in E1. injection E1 as <- Hext.
        apply app_inv_head in Hext. subst ext1. eexists. split.
        -- rewrite lookup_app_r by lia. rewrite Nat.sub_diag. reflexivity.
        -- reflexivity.
      * destruct (Hr r0 eq_refl) as [-> ->]. rewrite app_nil_r. exact Hp.
    + apply (IH _ _ E2). eapply Forall_impl; [exact Hps|].
      intros [s|r0]; simpl; [auto|apply nonStickyAt_app].
Qed.

(** The compiled lists of a configuration: the include expressions
    carry no flag if the include patterns carry none, and likewise for
    the exclude patterns, flag by flag. *)
Lemma createFilter_lists (include exclude : PathOption) (st0 st : Store) (f : Filter) :
  createFilter include exclude st0 = Some (f, st) ->
  (Forall (statelessPattern st0) (patternsOf include) ->
   Forall (statelessAt st) (compiledInclude f)) /\
  (Forall (statelessPattern st0) (patternsOf exclude) ->
   Forall (statelessAt st) (compiledExclude f)) /\
  (Forall (nonStickyPattern st0) (patternsOf exclude) ->
   Forall (nonStickyAt st) (compiledExclude f)).
Proof.
  unfold createFilter. rewrite !handlePath_compileAll. intros H.
  destruct (compileAll (patternsOf include) st0) as [[ci st1]|] eqn:E1; [|discriminate].
  rewrite handlePath_compileAll in H.
  destruct (compileAll (patternsOf exclude) st1) as [[ce st2]|] eqn:E2; [|discriminate].
  injection H as <- <-. cbn [compiledInclude compiledExclude].
  destruct (compileAll_extends _ _ _ _ E1) as [ext1 [-> _]].
  destruct (compileAll_extends _ _ _ _ E2) as [ext2 [-> _]].
  split; [|split].
  - intros Hi. destruct (compileAll_stateless _ _ _ _ E1 Hi) as [Hci _].
    eapply Forall_impl; [exact Hci|]. intros r. apply statelessAt_app.
  - intros He. apply (compileAll_stateless _ _ _ _ E2).
    eapply Forall_impl; [exact He|]. intros [s|r0]; simpl; [auto|apply statelessAt_app].
  - intros He. apply (compileAll_nonSticky _ _ _ _ E2).
    eapply Forall_impl; [exact He|]. intros [s|r0]; simpl; [auto|apply nonStickyAt_app].
Qed.

Lemma Forall_In {A} (Q : A -> Prop) (l : list A) (x : A) : Forall Q l -> In x l -> Q x.
Proof.
  induction 1 as [|y l Hy _ IH]; [contradiction|]. intros [<-|Hin]; auto.
Qed.

End FilterFacts.

(** * Pattern Compiler: the claims *)

(** C1 (the code departs from the claim).  The pattern [src/**/*.js]
    should match the path [src/a/b.js].  In the program the first pass
    escapes the stars as well, so the passes meant for [**] and [*]
    produce the source text [^src/\[^/]*\[^/]*/\[^/]*\.js$], and the
    compiled expression does not match [src/a/b.js]. *)
Theorem double_star_pattern_does_not_match :
  PatternCompiler.compiledSource (js "src/**/*.js")
    = js "^src/\[^/]*\[^/]*/\[^/]*\.js$" /\
  globMatches (js "src/**/*.js") (js "src/a/b.js") = Some false /\
  globMatches (js "src/*.js") (js "src/a/b.js") = Some false.
Proof. repeat split; reflexivity. Qed.

(** C8.  A string pattern without a star is compiled into a new
    expression whose [test] answers [true] for the pattern text itself
    and for no other string: the expression is anchored at both ends
    and every character of the pattern stands for itself. *)
Theorem literal_pattern_matches_exactly (p : JsString) (st : Store) :
  ~ In "*" p ->
  exists R,
    compilePattern (PString p) st = Some (length st, st ++ [R]) /\
    forall t, fst (test (length st) t (st ++ [R])) = true <-> t = p.
Proof.
  intros Hp. cbn [compilePattern]. rewrite RegExpCreate_compiledSource.
  eexists. split; [reflexivity|]. intros t.
  rewrite (test_stateless _ _ _ _ (list_lookup_middle st [] _ _ eq_refl))
    by (split; reflexivity).
  cbn [fst]. unfold matchesPattern, setLastIndex.
  cbn [RegExpMatcher global sticky]. rewrite exec_compiled, (termsOf_no_star _ Hp).
  destruct (List.list_eq_dec N.eq_dec t p) as [->|Hne].
  - rewrite literal_match_self. tauto.
  - rewrite (literal_match_other _ _ _ Hne). split; [discriminate|contradiction].
Qed.

(** The pattern [src/a.b]: the dot is escaped, so [src/axb] is not matched. *)
Lemma literal_pattern_matches_exactly_witness :
  ~ In "*" (js "src/a.b") /\
  exists R,
    compilePattern (PString (js "src/a.b")) [] = Some (0, [R]) /\
    (forall t, fst (test 0 t [R]) = true <-> t = js "src/a.b") /\
    fst (test 0 (js "src/axb") [R]) = false.
Proof.
  assert (H : ~ In "*" (js "src/a.b")).
  { simpl. intros H. repeat (destruct H as [H|H]; [discriminate H|]). exact H. }
  split; [exact H|].
  destruct (literal_pattern_matches_exactly (js "src/a.b") [] H) as [R [Hc Ht]].
  exists R. split; [exact Hc|]. split; [exact Ht|].
  destruct (fst (test 0 (js "src/axb") [R])) eqn:E; [|reflexivity].
  apply Ht in E. discriminate E.
Defined.

(** * Path Filter: the claims *)

(** C3 (counterexample).  With [exclude = /a/g] the first call on the
    path [a] answers [false] and moves [lastIndex] to [1]; the second
    call on the same path finds no match from there and answers [true],
    although the path matches the exclude expression. *)
Lemma exclude_precedence_fails_with_global_flag :
  ~ (forall include exclude st0,
       wellFormed include exclude st0 -> excludePrecedence include exclude st0).
Proof.
  intros H.
  destruct (H Undefined (Single (PRegExp 0)) [globalA]) as [f [st [Hc Hf]]].
  - repeat constructor.
  - simpl in Hc. injection Hc as <- <-.
    specialize (Hf [js "a"] (js "a") 0 (setLastIndex globalA 1)
                   (or_introl eq_refl) eq_refl eq_refl).
    discriminate Hf.
Qed.

(** C3 (amended).  When no exclude expression carries the [g] or [y]
    flag, a path that matches one of the compiled exclude expressions
    is rejected, whatever the include patterns are, flags included,
    and whatever calls came before. *)
Theorem exclude_precedence_with_flagless_exclude (include exclude : PathOption)
        (st0 : Store) :
  Forall (statelessPattern st0) (patternsOf exclude) ->
  excludePrecedence include exclude st0.
Proof.
  intros He. destruct (createFilter_some include exclude st0) as [f [st [E _]]].
  exists f, st. split; [exact E|].
  destruct (createFilter_lists _ _ _ _ _ E) as (_ & Hce & _). specialize (Hce He).
  intros history P r R Hin Hr Hm.
  destruct (storeKept_statelessAt _ _ _ (afterCalls_kept f history st)
              (Forall_In _ _ _ Hce Hin)) as [[R1 [Hr1 Hs]] _].
  assert (HR : Some R1 = Some R)
    by (transitivity (afterCalls f history st !! r); [symmetry; exact Hr1|exact Hr]).
  injection HR as ->.
  apply (exclude_hit_rejects f P _ r R Hin Hr).
  rewrite (exec_stateless _ _ Hs). cbn [fst]. unfold matchesPattern in Hm.
  destruct (fst (RegExpBuiltinExec (setLastIndex R 0) P)); [discriminate|discriminate Hm].
Qed.

(** An exclude list of [/node_modules/] and the string [dist], with
    the include expression [/a/g]: after a call on the path [a], which
    moves the [lastIndex] of the include expression, a path under
    [node_modules] is rejected. *)
Lemma exclude_precedence_with_flagless_exclude_witness :
  Forall (statelessPattern [nodeModules; globalA])
         (patternsOf (Array [PRegExp 0; PString (js "dist")])) /\
  excludePrecedence (Single (PRegExp 1)) (Array [PRegExp 0; PString (js "dist")])
                    [nodeModules; globalA] /\
  fst (filter (mkFilter [1] [0; 2]) (js "a/node_modules/b.js")
              (afterCalls (mkFilter [1] [0; 2]) [js "a"]
                          [nodeModules; globalA; compiledRegExp (js "dist")])) = false.
Proof.
  assert (H : Forall (statelessPattern [nodeModules; globalA])
                (patternsOf (Array [PRegExp 0; PString (js "dist")]))).
  { repeat constructor. exists nodeModules. repeat split. }
  split; [exact H|].
  split; [exact (exclude_precedence_with_flagless_exclude _ _ _ H)|].
  destruct (exclude_precedence_with_flagless_exclude
              (Single (PRegExp 1)) (Array [PRegExp 0; PString (js "dist")])
              [nodeModules; globalA] H) as [f [st [Hc Hf]]].
  assert (Hc' : createFilter (Single (PRegExp 1)) (Array [PRegExp 0; PString (js "dist")])
                             [nodeModules; globalA]
                = Some (mkFilter [1] [0; 2],
                        [nodeModules; globalA; compiledRegExp (js "dist")]))
    by reflexivity.
  rewrite Hc' in Hc. injection Hc as <- <-.
  exact (Hf [js "a"] (js "a/node_modules/b.js") 0 nodeModules
            (or_introl eq_refl) eq_refl eq_refl).
Defined.

(** The [y] flag on an exclude expression breaks the precedence as the
    [g] flag does: with [exclude = /a/y] the second call on the path
    [a] answers [true]. *)
Lemma exclude_precedence_fails_with_sticky_flag :
  ~ (forall include exclude st0,
       wellFormed include exclude st0 -> excludePrecedence include exclude st0).
Proof.
  intros H.
  destruct (H Undefined (Single (PRegExp 0)) [stickyA]) as [f [st [Hc Hf]]].
  - repeat constructor.
  - simpl in Hc. injection Hc as <- <-.
    specialize (Hf [js "a"] (js "a") 0 (setLastIndex stickyA 1)
                   (or_introl eq_refl) eq_refl eq_refl).
    discriminate Hf.
Qed.

(** C4 (counterexample).  With [include = /a/g] and no exclude pattern,
    the second call on the path [a] answers [false] although the
    include expression matches the path. *)
Lemma include_decides_fails_with_global_flag :
  ~ (forall include exclude st0,
       wellFormed include exclude st0 -> includeDecides include exclude st0).
Proof.
  intros H.
  destruct (H (Single (PRegExp 0)) Undefined [globalA]) as [f [st [Hc Hf]]].
  - repeat constructor.
  - simpl in Hc. injection Hc as <- <-.
    destruct (Hf [js "a"] (js "a")) as [_ Hiff].
    + intros r R [].
    + destruct Hiff as [_ Hback]; [discriminate|].
      assert (Hex : exists r R,
                 In r [0] /\
                 afterCalls (mkFilter [0] []) [js "a"] [globalA] !! r = Some R /\
                 matchesPattern R (js "a") = true).
      { exists 0, (setLastIndex globalA 1). repeat split. now left. }
      specialize (Hback Hex). discriminate Hback.
Qed.

(** C4 (amended).  When no include expression carries the [g] or [y]
    flag and no exclude expression carries the [y] flag, a path that
    matches no exclude expression passes if the include set is empty
    ([null], [undefined] or an empty array), and otherwise passes
    exactly when at least one include expression matches it. *)
Theorem include_decides_with_flagless_include (include exclude : PathOption)
        (st0 : Store) :
  Forall (statelessPattern st0) (patternsOf include) ->
  Forall (nonStickyPattern st0) (patternsOf exclude) ->
  includeDecides include exclude st0.
Proof.
  intros Hi He. destruct (createFilter_some include exclude st0) as [f [st [E [Li _]]]].
  exists f, st. split; [exact E|].
  destruct (createFilter_lists _ _ _ _ _ E) as (Hci & _ & Hce).
  specialize (Hci Hi). specialize (Hce He).
  intros history P Hno.
  pose proof (afterCalls_kept f history st) as Hk.
  remember (afterCalls f history st) as st' eqn:Est'.
  assert (Hmiss : fst (some (compiledExclude f) P st') = false).
  { apply some_miss. intros r R Hin Hr. split; [|exact (Hno r R Hin Hr)].
    destruct (storeKept_nonStickyAt _ _ _ Hk (Forall_In _ _ _ Hce Hin)) as [R1 [Hr1 Hy]].
    assert (HR : Some R1 = Some R)
      by (transitivity (st' !! r); [symmetry; exact Hr1|exact Hr]).
    injection HR as ->. exact Hy. }
  unfold filter. pose proof (some_kept (compiledExclude f) P st') as Hk1.
  destruct (some (compiledExclude f) P st') as [hit st1]. cbn [fst snd] in Hmiss, Hk1.
  subst hit. rewrite Li. split.
  - intros ->. reflexivity.
  - intros Hne. destruct (patternsOf include) as [|p ps] eqn:Ep; [congruence|].
    cbn [length Nat.eqb].
    assert (Hci1 : forall r, In r (compiledInclude f) ->
                             statelessAt st1 r /\ st1 !! r = st' !! r).
    { intros r Hin. apply (storeKept_statelessAt _ _ _ Hk1).
      apply (storeKept_statelessAt _ _ _ Hk). exact (Forall_In _ _ _ Hci Hin). }
    assert (Hall : Forall (statelessAt st1) (compiledInclude f)).
    { clear - Hci1. induction (compiledInclude f) as [|r rs IH]; constructor.
      - apply Hci1. now left.
      - apply IH. intros r0 Hin. apply Hci1. now right. }
    rewrite (some_stateless _ _ _ Hall). cbn [fst]. rewrite existsb_matchesAt.
    split; intros (r & R & Hin & Hr & Hm); exists r, R; (split; [exact Hin|]);
      (split; [|exact Hm]); destruct (Hci1 r Hin) as [_ Heq].
    + transitivity (st1 !! r); [symmetry; exact Heq|exact Hr].
    + transitivity (st' !! r); [exact Heq|exact Hr].
Qed.

(** An include list of the string [src/a.js] and [/node_modules/],
    with the exclude expression [/a/g]: after a call on the path [ba],
    which moves the [lastIndex] of the exclude expression, the path
    [node_modules/x], which has no [a], passes by the second include
    expression. *)
Lemma include_decides_with_flagless_include_witness :
  Forall (statelessPattern [nodeModules; globalA])
         (patternsOf (Array [PString (js "src/a.js"); PRegExp 0])) /\
  Forall (nonStickyPattern [nodeModules; globalA]) (patternsOf (Single (PRegExp 1))) /\
  includeDecides (Array [PString (js "src/a.js"); PRegExp 0]) (Single (PRegExp 1))
                 [nodeModules; globalA] /\
  afterCalls (mkFilter [2; 0] [1]) [js "ba"]
             [nodeModules; globalA; compiledRegExp (js "src/a.js")] !! 1
  = Some (setLastIndex globalA 2) /\
  fst (filter (mkFilter [2; 0] [1]) (js "node_modules/x")
              (afterCalls (mkFilter [2; 0] [1]) [js "ba"]
                          [nodeModules; globalA; compiledRegExp (js "src/a.js")])) = true.
Proof.
  assert (Hi : Forall (statelessPattern [nodeModules; globalA])
                 (patternsOf (Array [PString (js "src/a.js"); PRegExp 0]))).
  { repeat constructor. exists nodeModules. repeat split. }
  assert (He : Forall (nonStickyPattern [nodeModules; globalA])
                 (patternsOf (Single (PRegExp 1)))).
  { repeat constructor. exists globalA. repeat split. }
  split; [exact Hi|]. split; [exact He|].
  split; [exact (include_decides_with_flagless_include _ _ _ Hi He)|].
  split; [reflexivity|].
  destruct (include_decides_with_flagless_include
              (Array [PString (js "src/a.js"); PRegExp 0]) (Single (PRegExp 1))
              [nodeModules; globalA] Hi He) as [f [st [Hc Hf]]].
  assert (Hc' : createFilter (Array [PString (js "src/a.js"); PRegExp 0])
                             (Single (PRegExp 1)) [nodeModules; globalA]
                = Some (mkFilter [2; 0] [1],
                        [nodeModules; globalA; compiledRegExp (js "src/a.js")]))
    by reflexivity.
  rewrite Hc' in Hc. injection Hc as <- <-.
  destruct (Hf [js "ba"] (js "node_modules/x")) as [_ Hiff].
  - intros r R [<-|[]] HR.
    assert (HR' : Some R = Some (setLastIndex globalA 2))
      by (rewrite <- HR; reflexivity).
    injection HR' as ->. reflexivity.
  - apply Hiff; [discriminate|].
    exists 0, nodeModules. split; [right; now left|]. split; reflexivity.
Defined.

(** Both restrictions are needed.  With [include = /a/y], flagless
    exclude patterns do not help: the second call on the path [a]
    answers [false]. *)
Lemma include_decides_fails_with_sticky_include :
  ~ (forall include exclude st0,
       Forall (statelessPattern st0) (patternsOf exclude) ->
       wellFormed include exclude st0 -> includeDecides include exclude st0).
Proof.
  intros H.
  destruct (H (Single (PRegExp 0)) Undefined [stickyA]) as [f [st [Hc Hf]]].
  - constructor.
  - repeat constructor.
  - simpl in Hc. injection Hc as <- <-.
    destruct (Hf [js "a"] (js "a")) as [_ Hiff].
    + intros r R [].
    + destruct Hiff as [_ Hback]; [discriminate|].
      assert (Hex : exists r R,
                 In r [0] /\
                 afterCalls (mkFilter [0] []) [js "a"] [stickyA] !! r = Some R /\
                 matchesPattern R (js "a") = true).
      { exists 0, (setLastIndex stickyA 1). repeat split. now left. }
      specialize (Hback Hex). discriminate Hback.
Qed.

(** With [exclude = /a/y], flagless include patterns do not help: after
    a call on the path [a] the expression stands at index [1], where
    the path [ba] has an [a]; the path does not match the expression,
    which is anchored at its [lastIndex], from the beginning, and yet
    it is rejected. *)
Lemma include_decides_fails_with_sticky_exclude :
  ~ (forall include exclude st0,
       Forall (statelessPattern st0) (patternsOf include) ->
       wellFormed include exclude st0 -> includeDecides include exclude st0).
Proof.
  intros H.
  destruct (H Undefined (Single (PRegExp 0)) [stickyA]) as [f [st [Hc Hf]]].
  - constructor.
  - repeat constructor.
  - simpl in Hc. injection Hc as <- <-.
    destruct (Hf [js "a"] (js "ba")) as [Hempty _].
    + intros r R [<-|[]] HR.
      assert (HR' : Some R = Some (setLastIndex stickyA 1))
        by (rewrite <- HR; reflexivity).
      injection HR' as ->. reflexivity.
    + specialize (Hempty eq_refl). discriminate Hempty.
Qed.

(** C9 (counterexample).  With [include = /a/g] two successive calls on
    the path [a] answer [true] and then [false]. *)
Lemma filter_not_deterministic_with_global_flag :
  ~ (forall include exclude st0,
       wellFormed include exclude st0 -> deterministic include exclude st0).
Proof.
  intros H.
  destruct (H (Single (PRegExp 0)) Undefined [globalA]) as [f [st [Hc Hf]]].
  - repeat constructor.
  - simpl in Hc. injection Hc as <- <-.
    destruct (Hf [] (js "a")) as [Hsame _]. discriminate Hsame.
Qed.

(** C9 (amended).  When no expression of the configuration carries the
    [g] or [y] flag, the filter is deterministic: two successive calls
    on a path give the same answer, and the answer does not depend on
    the calls made before. *)
Theorem filter_deterministic_without_flags (include exclude : PathOption) (st0 : Store) :
  statelessConfig include exclude st0 -> deterministic include exclude st0.
Proof.
  intros Hc. destruct (createFilter_some include exclude st0) as [f [st [E _]]].
  exists f, st. split; [exact E|].
  destruct (createFilter_stateless _ _ _ _ _ E Hc) as [Hi He].
  intros history P. cbv zeta. rewrite (afterCalls_stateless _ _ _ Hi He).
  rewrite (filter_stateless _ _ _ Hi He). simpl.
  rewrite (filter_stateless _ _ _ Hi He). auto.
Qed.

(** Include [/node_modules/], exclude the string [dist]. *)
Lemma filter_deterministic_without_flags_witness :
  statelessConfig (Single (PRegExp 0)) (Single (PString (js "dist"))) [nodeModules] /\
  deterministic (Single (PRegExp 0)) (Single (PString (js "dist"))) [nodeModules].
Proof.
  assert (H : statelessConfig (Single (PRegExp 0)) (Single (PString (js "dist")))
                [nodeModules]).
  { repeat constructor. exists nodeModules. repeat split. }
  split; [exact H|]. exact (filter_deterministic_without_flags _ _ _ H).
Defined.

(** * Result Policy: facts about [transform] *)

Section PolicyFacts.

Variable pluginOptions : PluginOptions.
Variable pathFilter : Filter.
Variable eslint : ESLint.
Variable cwd : JsString.
Variable relative : JsString -> JsString -> JsString.

(** The hook, its parts and the notions above at these parameters. *)
Abbreviation transform' := (transform pluginOptions pathFilter eslint cwd relative).
Abbreviation tryBlock' := (tryBlock pluginOptions eslint cwd relative).
Abbreviation catchBlock' := (catchBlock pluginOptions).
Abbreviation shouldAbort' := (shouldAbort pluginOptions).
Abbreviation validationError' := (validationError cwd relative).
Abbreviation afterFilter' := (afterFilter pathFilter).
Abbreviation linted' := (linted pluginOptions pathFilter eslint).
Abbreviation lintedWorld' := (lintedWorld pluginOptions pathFilter eslint).
Abbreviation engineFailure' := (engineFailure pluginOptions eslint).

Lemma validationError_marked (id : JsString) (result : LintResult) :
  includes validationMarker (message (validationError' id result)) = true.
Proof. reflexivity. Qed.

Lemma wrapped_not_marked (m : JsString) :
  includes validationMarker m = false ->
  includes validationMarker (js "ESLint plugin error: " ++ m) = false.
Proof. intros H. cbn. exact H. Qed.

Lemma transform_filtered_out (code id : JsString) (w : World) :
  fst (filter pathFilter id (store w)) = false ->
  transform' code id w = (Normal null, afterFilter' id w).
Proof.
  intros H. unfold transform, callFilter, afterFilter, mbind, M_bind.
  destruct (filter pathFilter id (store w)) as [keep st]. simpl in H. subst keep.
  reflexivity.
Qed.

(** The hook, once the file has passed the filter: the [try] block,
    then the [catch] block if something was thrown. *)
Lemma transform_passed (code id : JsString) (w : World) :
  fst (filter pathFilter id (store w)) = true ->
  transform' code id w =
  match tryBlock' code id (afterFilter' id w) with
  | (Normal _, w') => (Normal null, w')
  | (Throw e, w') =>
      match catchBlock' id e w' with
      | (Normal _, w'') => (Normal null, w'')
      | (Throw e', w'') => (Throw e', w'')
      end
  end.
Proof.
  intros H. unfold transform, callFilter, afterFilter, tryCatch, mbind, M_bind.
  destruct (filter pathFilter id (store w)) as [keep st]. simpl in H. subst keep.
  cbn [negb snd].
  destruct (tryBlock' code id _) as [[[]|e] w']; [reflexivity|].
  destruct (catchBlock' id e w') as [[[]|e'] w'']; reflexivity.
Qed.

Lemma tryBlock_linted (w : World) (code id : JsString) (result : LintResult)
      (rest : list LintResult) (fmt : Formatter) (text : JsString) :
  linted' w code id (result :: rest) fmt text ->
  tryBlock' code id (afterFilter' id w) =
  (if shouldAbort' result then Throw (validationError' id result) else Normal tt,
   lintedWorld' w code id (result :: rest) text).
Proof.
  intros (Hf & Hi & Hl & Hx & Hm & Ht).
  unfold tryBlock, lintedWorld, afterFilter, call, callOutputFixes, consoleLog, emit.
  unfold mbind, M_bind, mret, M_ret, mthrow, M_throw.
  cbn [store disk log]. rewrite Hi, Hl. cbn [length Nat.ltb Nat.leb andb store disk log].
  rewrite andb_true_r.
  destruct (fix_ pluginOptions) eqn:Ef.
  - specialize (Hx eq_refl). cbn [store disk log].
    destruct (outputFixes eslint (result :: rest) (disk w)) as [ans d]. simpl in Hx. subst ans.
    cbn [store disk log snd]. rewrite Hm, Ht.
    destruct (truthy text); cbn [store disk log];
      destruct (shouldAbort' result); rewrite <- ?app_assoc; reflexivity.
  - cbn [store disk log snd]. rewrite Hm, Ht.
    destruct (truthy text); cbn [store disk log];
      destruct (shouldAbort' result); rewrite <- ?app_assoc; reflexivity.
Qed.

(** A linted cycle ends in the abort or in [null], with the log of a
    full cycle; nothing is written to [console.error]. *)
Lemma transform_linted (w : World) (code id : JsString) (result : LintResult)
      (rest : list LintResult) (fmt : Formatter) (text : JsString) :
  linted' w code id (result :: rest) fmt text ->
  transform' code id w =
  (if shouldAbort' result then Throw (validationError' id result) else Normal null,
   lintedWorld' w code id (result :: rest) text).
Proof.
  intros H. rewrite transform_passed by apply H.
  rewrite (tryBlock_linted _ _ _ _ _ _ _ H).
  destruct (shouldAbort' result); reflexivity.
Qed.

Lemma shouldAbort_iff (result : LintResult) :
  shouldAbort' result = true <->
  (0 < errorCount result /\ throwOnError pluginOptions = true) \/
  (0 < warningCount result /\ throwOnWarning pluginOptions = true).
Proof.
  unfold shouldAbort. rewrite orb_true_iff, !andb_true_iff, !Nat.ltb_lt. tauto.
Qed.

Lemma truthy_app_r (x y : JsString) : truthy y = true -> truthy (x ++ y) = true.
Proof. destruct x; [auto|reflexivity]. Qed.

Lemma validationError_summary (id : JsString) (result : LintResult) :
  validationError' id result =
  newError (js "ESLint validation failed for " ++ relative cwd id ++ js ": "
            ++ countSummary (errorCount result) (warningCount result)).
Proof.
  unfold validationError, countSummary, countPhrase.
  destruct (errorCount result) as [|[|E]], (warningCount result) as [|[|W]];
    cbn [Nat.ltb Nat.leb Nat.eqb];
    rewrite ?truthy_app_r by reflexivity;
    cbn [truthy app join]; rewrite ?app_nil_r; reflexivity.
Qed.

(** C2 (amended).  In a cycle that reaches the policy, the hook throws
    exactly when there are errors and [throwOnError] is set, or there
    are warnings and [throwOnWarning] is set; otherwise it answers
    [null], and the text rendered by the formatter has been printed if
    that text is not empty, while for an empty text [console.log] has
    not been called at all. *)
Theorem abort_iff_policy (w : World) (code id : JsString) (result : LintResult)
        (rest : list LintResult) (fmt : Formatter) (text : JsString) :
  linted' w code id (result :: rest) fmt text ->
  ((exists e, fst (transform' code id w) = Throw e) <->
   (0 < errorCount result /\ throwOnError pluginOptions = true) \/
   (0 < warningCount result /\ throwOnWarning pluginOptions = true)) /\
  (~ ((0 < errorCount result /\ throwOnError pluginOptions = true) \/
      (0 < warningCount result /\ throwOnWarning pluginOptions = true)) ->
   fst (transform' code id w) = Normal null /\
   (text <> [] -> In (EvConsoleLog text) (log (snd (transform' code id w)))) /\
   (text = [] ->
    forall printed,
      In (EvConsoleLog printed) (log (snd (transform' code id w))) ->
      In (EvConsoleLog printed) (log w))).
Proof.
  intros H. rewrite (transform_linted _ _ _ _ _ _ _ H).
  rewrite <- shouldAbort_iff. cbn [fst snd]. split; [split|].
  - intros [e He]. destruct (shouldAbort' result); [reflexivity|discriminate].
  - intros ->. eauto.
  - intros Hn. destruct (shouldAbort' result); [congruence|].
    split; [reflexivity|]. unfold lintedWorld. cbn [log]. split.
    + intros Ht. destruct text; [congruence|]. cbn [truthy].
      rewrite !in_app_iff. do 4 right. now left.
    + intros -> printed. cbn [truthy]. rewrite !in_app_iff.
      intros [Hin|[Hin|[Hin|[Hin|Hin]]]]; [assumption|exfalso..].
      * simpl in Hin. intuition discriminate.
      * destruct (fix_ pluginOptions); simpl in Hin; intuition discriminate.
      * simpl in Hin. intuition discriminate.
      * contradiction.
Qed.

(** C6.  The error thrown on abort names the file relative to the
    working directory and gives the counts: a kind whose count is zero
    is left out, a count of one is singular, a larger count is plural,
    and errors come before warnings, joined by [and]. *)
Theorem abort_message_names_file_and_counts (w : World) (code id : JsString)
        (result : LintResult) (rest : list LintResult) (fmt : Formatter)
        (text : JsString) :
  linted' w code id (result :: rest) fmt text ->
  shouldAbort' result = true ->
  fst (transform' code id w) =
    Throw (newError (js "ESLint validation failed for " ++ relative cwd id ++ js ": "
                     ++ countSummary (errorCount result) (warningCount result))) /\
  (errorCount result = 1 -> warningCount result = 0 ->
   message (validationError' id result)
   = js "ESLint validation failed for " ++ relative cwd id ++ js ": 1 error") /\
  (errorCount result = 2 -> warningCount result = 0 ->
   message (validationError' id result)
   = js "ESLint validation failed for " ++ relative cwd id ++ js ": 2 errors") /\
  (errorCount result = 1 -> warningCount result = 2 ->
   message (validationError' id result)
   = js "ESLint validation failed for " ++ relative cwd id
     ++ js ": 1 error and 2 warnings").
Proof.
  intros H Ha. rewrite (transform_linted _ _ _ _ _ _ _ H), Ha. cbn [fst].
  split; [now rewrite validationError_summary|].
  unfold validationError. repeat split; intros -> ->; reflexivity.
Qed.

(** C10.  The outcome of a cycle is decided by the first element of
    the list returned by the engine.  With an empty list the hook
    answers [null] after the two calls to the engine: no fix is
    written, no formatter is loaded, nothing is printed.  With a
    non-empty list the hook throws or not according to the counts of
    the first element, whose counts alone appear in the error; two
    cycles whose lists share the first element end alike. *)
Theorem outcome_decided_by_first_result (w : World) (code id : JsString) :
  fst (filter pathFilter id (store w)) = true ->
  isPathIgnored eslint id = Normal false ->
  (lintText eslint code id = Normal [] ->
   transform' code id w
   = (Normal null,
      addLog [EvIsPathIgnored id; EvLintText code id] (afterFilter' id w))) /\
  (forall result rest fmt text,
     linted' w code id (result :: rest) fmt text ->
     fst (transform' code id w)
     = if shouldAbort' result then Throw (validationError' id result)
       else Normal null) /\
  (forall result rest fmt text w2 code2 rest2 fmt2 text2,
     linted' w code id (result :: rest) fmt text ->
     linted' w2 code2 id (result :: rest2) fmt2 text2 ->
     fst (transform' code id w) = fst (transform' code2 id w2)).
Proof.
  intros Hf Hi. split; [|split].
  - intros Hl. rewrite transform_passed by assumption.
    unfold tryBlock, call, mbind, M_bind, mret, M_ret, addLog, afterFilter.
    rewrite Hi, Hl. cbn [length Nat.ltb Nat.leb andb store disk log].
    rewrite andb_false_r. rewrite <- app_assoc. reflexivity.
  - intros result rest fmt text H.
    now rewrite (transform_linted _ _ _ _ _ _ _ H).
  - intros result rest fmt text w2 code2 rest2 fmt2 text2 H1 H2.
    rewrite (transform_linted _ _ _ _ _ _ _ H1), (transform_linted _ _ _ _ _ _ _ H2).
    reflexivity.
Qed.

(** Whatever is thrown, the [catch] block only adds to the log. *)
Lemma catchBlock_world (id : JsString) (e : Error) (w : World) :
  exists evs, snd (catchBlock' id e w) = addLog evs w.
Proof.
  unfold catchBlock, consoleError, emit, mbind, M_bind, mret, M_ret, mthrow, M_throw, addLog.
  destruct (messageSlot e) as [text|complaint].
  - destruct (includes validationMarker text); cbn [negb snd].
    + exists []. rewrite app_nil_r. now destruct w.
    + destruct (throwOnError pluginOptions); eexists; reflexivity.
  - exists []. cbn [snd]. rewrite app_nil_r. now destruct w.
Qed.

Lemma transform_world (code id : JsString) (w w1 : World) (c : Completion unit) :
  fst (filter pathFilter id (store w)) = true ->
  tryBlock' code id (afterFilter' id w) = (c, w1) ->
  exists evs, snd (transform' code id w) = addLog evs w1.
Proof.
  intros Hf Ht. rewrite transform_passed by assumption. rewrite Ht.
  destruct c as [[]|e].
  - exists []. unfold addLog. rewrite app_nil_r. now destruct w1.
  - destruct (catchBlock_world id e w1) as [evs Hevs]. exists evs.
    destruct (catchBlock' id e w1) as [[[]|e'] w2]; exact Hevs.
Qed.

(** With [fix] on and a non-empty list, the [try] block calls
    [outputFixes] third, and nothing after it touches storage. *)
Lemma tryBlock_fixes (w : World) (code id : JsString) (results : list LintResult) :
  isPathIgnored eslint id = Normal false ->
  lintText eslint code id = Normal results ->
  results <> [] ->
  fix_ pluginOptions = true ->
  exists c evs,
    tryBlock' code id (afterFilter' id w) =
    (c, mkWorld (snd (filter pathFilter id (store w)))
                (snd (outputFixes eslint results (disk w)))
                (log w ++ [EvIsPathIgnored id; EvLintText code id; EvOutputFixes results]
                       ++ evs)).
Proof.
  intros Hi Hl Hne Hfix. destruct results as [|result rest]; [congruence|].
  unfold tryBlock, afterFilter, call, callOutputFixes, consoleLog, emit.
  unfold mbind, M_bind, mret, M_ret, mthrow, M_throw.
  cbn [store disk log]. rewrite Hi, Hl, Hfix.
  cbn [length Nat.ltb Nat.leb andb store disk log].
  destruct (outputFixes eslint (result :: rest) (disk w)) as [[[]|e] d]; cbn [snd];
    [|exists (Throw e), []; rewrite <- !app_assoc; reflexivity].
  cbn [store disk log].
  destruct (loadFormatter eslint (formatter pluginOptions)) as [fmt|e];
    [|eexists (Throw e), _; rewrite <- !app_assoc; reflexivity].
  cbn [store disk log].
  destruct (format fmt (result :: rest)) as [text|e];
    [|eexists (Throw e), _; rewrite <- !app_assoc; reflexivity].
  destruct (truthy text); cbn [store disk log]; destruct (shouldAbort' result);
    eexists _, _; rewrite <- !app_assoc; reflexivity.
Qed.

(** C7.  With [fix] on and a non-empty list of results, the fixes are
    written right after linting, before the formatter is loaded and
    before the decision to abort: storage at the end of the cycle is
    what [outputFixes] left, however the cycle ends, and in particular
    when it ends in the abort. *)
Theorem fixes_written_before_abort (w : World) (code id : JsString)
        (results : list LintResult) :
  fst (filter pathFilter id (store w)) = true ->
  isPathIgnored eslint id = Normal false ->
  lintText eslint code id = Normal results ->
  results <> [] ->
  fix_ pluginOptions = true ->
  (exists later,
     log (snd (transform' code id w))
     = log w ++ [EvIsPathIgnored id; EvLintText code id; EvOutputFixes results]
             ++ later) /\
  disk (snd (transform' code id w)) = snd (outputFixes eslint results (disk w)) /\
  (forall result rest fmt text,
     results = result :: rest ->
     linted' w code id results fmt text ->
     shouldAbort' result = true ->
     fst (transform' code id w) = Throw (validationError' id result) /\
     In (EvOutputFixes results) (log (snd (transform' code id w)))).
Proof.
  intros Hf Hi Hl Hne Hfix.
  destruct (tryBlock_fixes w code id results Hi Hl Hne Hfix) as [c [evs Ht]].
  destruct (transform_world _ _ _ _ _ Hf Ht) as [evs' Hw].
  rewrite Hw. unfold addLog. cbn [store disk log]. split; [|split].
  - exists (evs ++ evs'). now rewrite <- !app_assoc.
  - reflexivity.
  - intros result rest fmt text -> H Ha. split.
    + now rewrite (transform_linted _ _ _ _ _ _ _ H), Ha.
    + rewrite !in_app_iff. left. right. left. simpl. auto.
Qed.

Lemma tryBlock_engineFailure (w : World) (code id : JsString) (e : Error) :
  engineFailure' w code id e ->
  exists w1, tryBlock' code id (afterFilter' id w) = (Throw e, w1).
Proof.
  intros H.
  unfold tryBlock, afterFilter, call, callOutputFixes, consoleLog, emit.
  unfold mbind, M_bind, mret, M_ret, mthrow, M_throw.
  cbn [store disk log].
  destruct H as [e Hi|e Hi Hl|e results Hi Hl Hne Hfix Hx
                |e results Hi Hl Hne Hx Hm|e results fmt Hi Hl Hne Hx Hm Ht];
    rewrite Hi; [eexists; reflexivity|rewrite Hl..]; [eexists; reflexivity|..];
    (destruct results as [|result rest]; [congruence|]);
    cbn [length Nat.ltb Nat.leb andb store disk log]; rewrite andb_true_r.
  - rewrite Hfix. cbn [store disk log].
    destruct (outputFixes eslint (result :: rest) (disk w)) as [ans d].
    simpl in Hx. subst ans. eexists; reflexivity.
  - destruct (fix_ pluginOptions).
    + specialize (Hx eq_refl). cbn [store disk log].
      destruct (outputFixes eslint (result :: rest) (disk w)) as [ans d].
      simpl in Hx. subst ans. cbn [store disk log]. rewrite Hm. eexists; reflexivity.
    + cbn [store disk log]. rewrite Hm. eexists; reflexivity.
  - destruct (fix_ pluginOptions).
    + specialize (Hx eq_refl). cbn [store disk log].
      destruct (outputFixes eslint (result :: rest) (disk w)) as [ans d].
      simpl in Hx. subst ans. cbn [store disk log]. rewrite Hm, Ht. eexists; reflexivity.
    + cbn [store disk log]. rewrite Hm, Ht. eexists; reflexivity.
Qed.

(** The [try] block writes nothing to [console.error]. *)
Lemma tryBlock_quiet (w w1 : World) (code id : JsString) (c : Completion unit) :
  tryBlock' code id (afterFilter' id w) = (c, w1) -> noConsoleError w w1.
Proof.
  unfold tryBlock, afterFilter, call, callOutputFixes, consoleLog, emit.
  unfold mbind, M_bind, mret, M_ret, mthrow, M_throw.
  cbn [store disk log].
  assert (Hq : forall evs w2,
             log w2 = log w ++ evs ->
             Forall (fun ev => forall banner e, ev <> EvConsoleError banner e) evs ->
             noConsoleError w w2).
  { intros evs w2 Hl Hevs banner e. rewrite Hl, in_app_iff. intros [Hin|Hin]; [assumption|].
    exfalso. clear Hl. induction Hevs as [|ev evs Hev _ IH]; [contradiction|].
    destruct Hin as [->|Hin]; [now apply (Hev banner e)|auto]. }
  destruct (isPathIgnored eslint id) as [[|]|e0]; cbn [store disk log];
    [intros H; injection H as <- <-; apply (Hq [EvIsPathIgnored id]);
       [reflexivity|repeat constructor; discriminate]| |
     intros H; injection H as <- <-; apply (Hq [EvIsPathIgnored id]);
       [reflexivity|repeat constructor; discriminate]].
  destruct (lintText eslint code id) as [[|result rest]|e0];
    cbn [length Nat.ltb Nat.leb andb store disk log];
    [rewrite andb_false_r; intros H; injection H as <- <-;
       apply (Hq [EvIsPathIgnored id; EvLintText code id]);
       [cbn [log]; now rewrite <- app_assoc|repeat constructor; discriminate]| |
     intros H; injection H as <- <-;
       apply (Hq [EvIsPathIgnored id; EvLintText code id]);
       [cbn [log]; now rewrite <- app_assoc|repeat constructor; discriminate]].
  rewrite andb_true_r.
  destruct (fix_ pluginOptions); cbn [store disk log].
  - destruct (outputFixes eslint (result :: rest) (disk w)) as [[[]|e0] d];
      cbn [store disk log];
      [|intros H; injection H as <- <-; eapply Hq;
          [cbn [log]; rewrite <- !app_assoc; reflexivity|repeat constructor; discriminate]].
    destruct (loadFormatter eslint (formatter pluginOptions)) as [fmt|e0];
      cbn [store disk log];
      [|intros H; injection H as <- <-; eapply Hq;
          [cbn [log]; rewrite <- !app_assoc; reflexivity|repeat constructor; discriminate]].
    destruct (format fmt (result :: rest)) as [text|e0]; cbn [store disk log];
      [|intros H; injection H as <- <-; eapply Hq;
          [cbn [log]; rewrite <- !app_assoc; reflexivity|repeat constructor; discriminate]].
    destruct (truthy text); cbn [store disk log];
      destruct (shouldAbort' result); intros H; injection H as <- <-; eapply Hq;
      solve [cbn [log]; rewrite <- !app_assoc; reflexivity|repeat constructor; discriminate].
  - destruct (loadFormatter eslint (formatter pluginOptions)) as [fmt|e0];
      cbn [store disk log];
      [|intros H; injection H as <- <-; eapply Hq;
          [cbn [log]; rewrite <- !app_assoc; reflexivity|repeat constructor; discriminate]].
    destruct (format fmt (result :: rest)) as [text|e0]; cbn [store disk log];
      [|intros H; injection H as <- <-; eapply Hq;
          [cbn [log]; rewrite <- !app_assoc; reflexivity|repeat constructor; discriminate]].
    destruct (truthy text); cbn [store disk log];
      destruct (shouldAbort' result); intros H; injection H as <- <-; eapply Hq;
      solve [cbn [log]; rewrite <- !app_assoc; reflexivity|repeat constructor; discriminate].
Qed.

(** C5 (amended).  An error with a string message thrown by a
    collaborator is handled by that message.  If the message does not
    contain the text [ESLint validation failed], the error is written
    to [console.error]; the hook then throws a fresh error
    [ESLint plugin error: ...], which does not contain that text
    either, if [throwOnError] is set, and answers [null] otherwise.
    If the message contains the text, the error is thrown on as it is
    and nothing is written to [console.error]; so it is with the abort
    on lint findings, whatever [throwOnError] says. *)
Theorem engine_errors_logged_and_gated (w : World) (code id : JsString) :
  fst (filter pathFilter id (store w)) = true ->
  (forall e text,
     engineFailure' w code id e ->
     messageSlot e = StringMessage text ->
     includes validationMarker text = false ->
     In (EvConsoleError (errorBanner id) e) (log (snd (transform' code id w))) /\
     fst (transform' code id w)
     = (if throwOnError pluginOptions
        then Throw (newError (js "ESLint plugin error: " ++ text))
        else Normal null) /\
     includes validationMarker (js "ESLint plugin error: " ++ text) = false) /\
  (forall e text,
     engineFailure' w code id e ->
     messageSlot e = StringMessage text ->
     includes validationMarker text = true ->
     fst (transform' code id w) = Throw e /\
     noConsoleError w (snd (transform' code id w))) /\
  (forall result rest fmt text,
     linted' w code id (result :: rest) fmt text ->
     shouldAbort' result = true ->
     fst (transform' code id w) = Throw (validationError' id result) /\
     noConsoleError w (snd (transform' code id w))).
Proof.
  intros Hf. split; [|split].
  - intros e text He Hs Hm. destruct (tryBlock_engineFailure _ _ _ _ He) as [w1 Ht].
    rewrite transform_passed by assumption. rewrite Ht.
    unfold catchBlock, consoleError, emit, mbind, M_bind, mret, M_ret, mthrow, M_throw.
    rewrite Hs, Hm. cbn [negb]. fold (errorBanner id).
    split; [|split].
    + destruct (throwOnError pluginOptions); cbn [snd log];
        rewrite in_app_iff; right; now left.
    + destruct (throwOnError pluginOptions); reflexivity.
    + now apply wrapped_not_marked.
  - intros e text He Hs Hm. destruct (tryBlock_engineFailure _ _ _ _ He) as [w1 Ht].
    rewrite transform_passed by assumption. rewrite Ht.
    unfold catchBlock. rewrite Hs, Hm. cbn [negb mthrow M_throw fst snd].
    split; [reflexivity|]. exact (tryBlock_quiet _ _ _ _ _ Ht).
  - intros result rest fmt text H Ha.
    rewrite (transform_linted _ _ _ _ _ _ _ H), Ha. cbn [fst snd].
    split; [reflexivity|]. intros banner e. unfold lintedWorld. cbn [log].
    rewrite !in_app_iff. intros [Hin|[Hin|[Hin|[Hin|Hin]]]]; [assumption|exfalso..].
    + simpl in Hin. intuition discriminate.
    + destruct (fix_ pluginOptions); simpl in Hin; intuition discriminate.
    + simpl in Hin. intuition discriminate.
    + destruct (truthy text); simpl in Hin; intuition discriminate.
Qed.

End PolicyFacts.

(** * Result Policy: the claims at concrete inputs *)

(** C2 (counterexample).  One error, [throwOnError] off, and a
    formatter that renders the empty string: the hook answers [null]
    and [console.log] is not called. *)
Lemma findings_not_printed_when_rendering_is_empty :
  ~ (forall pluginOptions pathFilter eslint cwd relative,
       abortPolicyAsStated pluginOptions pathFilter eslint cwd relative).
Proof.
  intros H.
  destruct (H lenient passAll (quietEngine [flagged]) (js "/w") stripRoot
              emptyWorld (js "code") (js "/w/app.js") flagged [] quietFormatter [])
    as [_ Hp].
  - repeat split.
  - destruct Hp as [_ Hin].
    + intros [[_ Ht]|[_ Ht]]; discriminate Ht.
    + simpl in Hin. intuition discriminate.
Qed.

(** One error and two warnings.  With [throwOnError] on the hook
    throws; with both flags off it answers [null] and the rendering
    has been printed; with a formatter that renders nothing it
    answers [null] and [console.log] has not been called. *)
Lemma abort_iff_policy_witness :
  linted strict passAll (reportingEngine [flagged]) emptyWorld (js "code")
         (js "/w/app.js") [flagged] summaryFormatter (js "problems found") /\
  (exists e,
     fst (transform strict passAll (reportingEngine [flagged]) (js "/w") stripRoot
                    (js "code") (js "/w/app.js") emptyWorld) = Throw e) /\
  linted lenient passAll (reportingEngine [flagged]) emptyWorld (js "code")
         (js "/w/app.js") [flagged] summaryFormatter (js "problems found") /\
  fst (transform lenient passAll (reportingEngine [flagged]) (js "/w") stripRoot
                 (js "code") (js "/w/app.js") emptyWorld) = Normal null /\
  In (EvConsoleLog (js "problems found"))
     (log (snd (transform lenient passAll (reportingEngine [flagged]) (js "/w") stripRoot
                          (js "code") (js "/w/app.js") emptyWorld))) /\
  linted lenient passAll (quietEngine [flagged]) emptyWorld (js "code")
         (js "/w/app.js") [flagged] quietFormatter [] /\
  (forall printed,
     ~ In (EvConsoleLog printed)
          (log (snd (transform lenient passAll (quietEngine [flagged]) (js "/w") stripRoot
                               (js "code") (js "/w/app.js") emptyWorld)))).
Proof.
  assert (H : linted strict passAll (reportingEngine [flagged]) emptyWorld (js "code")
                (js "/w/app.js") [flagged] summaryFormatter (js "problems found")).
  { repeat split. }
  assert (Hl : linted lenient passAll (reportingEngine [flagged]) emptyWorld (js "code")
                 (js "/w/app.js") [flagged] summaryFormatter (js "problems found")).
  { repeat split. }
  assert (Hq : linted lenient passAll (quietEngine [flagged]) emptyWorld (js "code")
                 (js "/w/app.js") [flagged] quietFormatter []).
  { repeat split. }
  assert (Hn : ~ ((0 < errorCount flagged /\ throwOnError lenient = true) \/
                  (0 < warningCount flagged /\ throwOnWarning lenient = true))).
  { intros [[_ Ht]|[_ Ht]]; discriminate Ht. }
  split; [exact H|]. split.
  { apply (proj1 (abort_iff_policy strict passAll (reportingEngine [flagged]) (js "/w")
                    stripRoot emptyWorld (js "code") (js "/w/app.js") flagged []
                    summaryFormatter (js "problems found") H)).
    left. split; [simpl; lia|reflexivity]. }
  split; [exact Hl|].
  destruct (proj2 (abort_iff_policy lenient passAll (reportingEngine [flagged]) (js "/w")
                     stripRoot emptyWorld (js "code") (js "/w/app.js") flagged []
                     summaryFormatter (js "problems found") Hl) Hn)
    as [Hnull [Hprinted _]].
  split; [exact Hnull|]. split; [apply Hprinted; discriminate|].
  split; [exact Hq|].
  destruct (proj2 (abort_iff_policy lenient passAll (quietEngine [flagged]) (js "/w")
                     stripRoot emptyWorld (js "code") (js "/w/app.js") flagged []
                     quietFormatter [] Hq) Hn)
    as [_ [_ Hsilent]].
  intros printed Hin. exact (Hsilent eq_refl printed Hin).
Defined.

(** C5 (counterexample).  [lintText] throws an error whose message
    contains [ESLint validation failed] while [throwOnError] is off:
    the hook throws that very error and logs nothing. *)
Lemma engine_error_with_marker_is_rethrown :
  ~ (forall pluginOptions pathFilter eslint cwd relative,
       engineErrorsAsStated pluginOptions pathFilter eslint cwd relative).
Proof.
  intros H.
  destruct (H lenient passAll
              (failingEngine (newError (js "ESLint validation failed to start")))
              (js "/w") stripRoot emptyWorld (js "code") (js "/w/app.js")
              (newError (js "ESLint validation failed to start")))
    as [_ Hout].
  - reflexivity.
  - apply ThrowsLintText; reflexivity.
  - discriminate Hout.
Qed.

(** [lintText] throws [config not found] with [throwOnError] on: the
    error is logged and the hook throws the wrapped error.  [lintText]
    throws [ESLint validation failed to start] with [throwOnError]
    off: the hook throws that error and logs nothing.  One error in
    the file with [throwOnError] on: the hook throws the abort and
    logs nothing. *)
Lemma engine_errors_logged_and_gated_witness :
  fst (filter passAll (js "/w/app.js") (store emptyWorld)) = true /\
  (engineFailure strict (failingEngine (newError (js "config not found")))
                 emptyWorld (js "code") (js "/w/app.js")
                 (newError (js "config not found")) /\
   In (EvConsoleError (errorBanner (js "/w/app.js")) (newError (js "config not found")))
      (log (snd (transform strict passAll
                           (failingEngine (newError (js "config not found")))
                           (js "/w") stripRoot (js "code") (js "/w/app.js") emptyWorld))) /\
   fst (transform strict passAll (failingEngine (newError (js "config not found")))
                  (js "/w") stripRoot (js "code") (js "/w/app.js") emptyWorld)
   = Throw (newError (js "ESLint plugin error: config not found"))) /\
  (engineFailure lenient
                 (failingEngine (newError (js "ESLint validation failed to start")))
                 emptyWorld (js "code") (js "/w/app.js")
                 (newError (js "ESLint validation failed to start")) /\
   fst (transform lenient passAll
                  (failingEngine (newError (js "ESLint validation failed to start")))
                  (js "/w") stripRoot (js "code") (js "/w/app.js") emptyWorld)
   = Throw (newError (js "ESLint validation failed to start")) /\
   forall banner e,
     ~ In (EvConsoleError banner e)
          (log (snd (transform lenient passAll
                               (failingEngine
                                  (newError (js "ESLint validation failed to start")))
                               (js "/w") stripRoot (js "code") (js "/w/app.js")
                               emptyWorld)))) /\
  (linted strict passAll (reportingEngine [flagged]) emptyWorld (js "code")
          (js "/w/app.js") [flagged] summaryFormatter (js "problems found") /\
   fst (transform strict passAll (reportingEngine [flagged]) (js "/w") stripRoot
                  (js "code") (js "/w/app.js") emptyWorld)
   = Throw (validationError (js "/w") stripRoot (js "/w/app.js") flagged) /\
   forall banner e,
     ~ In (EvConsoleError banner e)
          (log (snd (transform strict passAll (reportingEngine [flagged]) (js "/w")
                               stripRoot (js "code") (js "/w/app.js") emptyWorld)))).
Proof.
  assert (He : engineFailure strict (failingEngine (newError (js "config not found")))
                 emptyWorld (js "code") (js "/w/app.js")
                 (newError (js "config not found"))).
  { apply ThrowsLintText; reflexivity. }
  assert (Hm : engineFailure lenient
                 (failingEngine (newError (js "ESLint validation failed to start")))
                 emptyWorld (js "code") (js "/w/app.js")
                 (newError (js "ESLint validation failed to start"))).
  { apply ThrowsLintText; reflexivity. }
  assert (Hl : linted strict passAll (reportingEngine [flagged]) emptyWorld (js "code")
                 (js "/w/app.js") [flagged] summaryFormatter (js "problems found")).
  { repeat split. }
  split; [reflexivity|]. split; [|split].
  - split; [exact He|].
    destruct (proj1 (engine_errors_logged_and_gated strict passAll
                       (failingEngine (newError (js "config not found")))
                       (js "/w") stripRoot emptyWorld (js "code") (js "/w/app.js")
                       eq_refl)
                    (newError (js "config not found")) (js "config not found")
                    He eq_refl eq_refl)
      as [Hlog [Hout _]].
    split; [exact Hlog|exact Hout].
  - split; [exact Hm|].
    destruct (proj1 (proj2 (engine_errors_logged_and_gated lenient passAll
                              (failingEngine
                                 (newError (js "ESLint validation failed to start")))
                              (js "/w") stripRoot emptyWorld (js "code") (js "/w/app.js")
                              eq_refl))
                    (newError (js "ESLint validation failed to start"))
                    (js "ESLint validation failed to start")
                    Hm eq_refl eq_refl)
      as [Hout Hquiet].
    split; [exact Hout|]. intros banner e Hin. exact (Hquiet banner e Hin).
  - split; [exact Hl|].
    destruct (proj2 (proj2 (engine_errors_logged_and_gated strict passAll
                              (reportingEngine [flagged])
                              (js "/w") stripRoot emptyWorld (js "code") (js "/w/app.js")
                              eq_refl))
                    flagged [] summaryFormatter (js "problems found") Hl eq_refl)
      as [Hout Hquiet].
    split; [exact Hout|]. intros banner e Hin. exact (Hquiet banner e Hin).
Defined.

(** One error and two warnings in [/w/app.js], working directory [/w]. *)
Lemma abort_message_names_file_and_counts_witness :
  linted strict passAll (reportingEngine [flagged]) emptyWorld (js "code")
         (js "/w/app.js") [flagged] summaryFormatter (js "problems found") /\
  shouldAbort strict flagged = true /\
  fst (transform strict passAll (reportingEngine [flagged]) (js "/w") stripRoot
                 (js "code") (js "/w/app.js") emptyWorld)
  = Throw (newError (js "ESLint validation failed for app.js: 1 error and 2 warnings")).
Proof.
  assert (H : linted strict passAll (reportingEngine [flagged]) emptyWorld (js "code")
                (js "/w/app.js") [flagged] summaryFormatter (js "problems found")).
  { repeat split. }
  split; [exact H|]. split; [reflexivity|].
  exact (proj1 (abort_message_names_file_and_counts strict passAll
                  (reportingEngine [flagged]) (js "/w") stripRoot emptyWorld
                  (js "code") (js "/w/app.js") flagged [] summaryFormatter
                  (js "problems found") H eq_refl)).
Defined.

(** The cycle throws, and the fixed text is on storage all the same. *)
Lemma fixes_written_before_abort_witness :
  fst (transform strict passAll (reportingEngine [flagged]) (js "/w") stripRoot
                 (js "code") (js "/w/app.js") emptyWorld)
  = Throw (validationError (js "/w") stripRoot (js "/w/app.js") flagged) /\
  disk (snd (transform strict passAll (reportingEngine [flagged]) (js "/w") stripRoot
                       (js "code") (js "/w/app.js") emptyWorld))
  = [(js "/w/app.js", js "fixed")].
Proof.
  assert (H : linted strict passAll (reportingEngine [flagged]) emptyWorld (js "code")
                (js "/w/app.js") [flagged] summaryFormatter (js "problems found")).
  { repeat split. }
  assert (Hne : [flagged] <> []) by discriminate.
  pose proof (fixes_written_before_abort strict passAll (reportingEngine [flagged])
                (js "/w") stripRoot emptyWorld (js "code") (js "/w/app.js") [flagged]
                eq_refl eq_refl eq_refl Hne eq_refl) as [_ [Hd Ha]].
  split; [|exact Hd].
  exact (proj1 (Ha flagged [] summaryFormatter (js "problems found") eq_refl H eq_refl)).
Defined.

(** An engine that answers the empty list for the empty text, [clean]
    alone for a text of one character, and [clean] followed by
    [broken] otherwise.  With the empty list the hook answers [null]
    after the two calls to the engine; with [clean] first it answers
    [null] although [broken], second in the list, has five errors and
    [throwOnError] is set, just as for the list of [clean] alone. *)
Lemma outcome_decided_by_first_result_witness :
  fst (filter passAll (js "/w/app.js") (store emptyWorld)) = true /\
  isPathIgnored gradedEngine (js "/w/app.js") = Normal false /\
  lintText gradedEngine [] (js "/w/app.js") = Normal [] /\
  linted strict passAll gradedEngine emptyWorld (js "code") (js "/w/app.js")
         [clean; broken] summaryFormatter (js "problems found") /\
  linted strict passAll gradedEngine emptyWorld (js "c") (js "/w/app.js")
         [clean] summaryFormatter [] /\
  transform strict passAll gradedEngine (js "/w") stripRoot [] (js "/w/app.js") emptyWorld
  = (Normal null,
     mkWorld [] [] [EvIsPathIgnored (js "/w/app.js"); EvLintText [] (js "/w/app.js")]) /\
  fst (transform strict passAll gradedEngine (js "/w") stripRoot
                 (js "code") (js "/w/app.js") emptyWorld) = Normal null /\
  fst (transform strict passAll gradedEngine (js "/w") stripRoot
                 (js "code") (js "/w/app.js") emptyWorld)
  = fst (transform strict passAll gradedEngine (js "/w") stripRoot
                   (js "c") (js "/w/app.js") emptyWorld).
Proof.
  assert (H2 : linted strict passAll gradedEngine emptyWorld (js "code") (js "/w/app.js")
                 [clean; broken] summaryFormatter (js "problems found")).
  { repeat split. }
  assert (H1 : linted strict passAll gradedEngine emptyWorld (js "c") (js "/w/app.js")
                 [clean] summaryFormatter []).
  { repeat split. }
  split; [reflexivity|]. split; [reflexivity|]. split; [reflexivity|].
  split; [exact H2|]. split; [exact H1|].
  pose proof (outcome_decided_by_first_result strict passAll gradedEngine
                (js "/w") stripRoot emptyWorld [] (js "/w/app.js")
                eq_refl eq_refl) as [Hempty _].
  pose proof (outcome_decided_by_first_result strict passAll gradedEngine
                (js "/w") stripRoot emptyWorld (js "code") (js "/w/app.js")
                eq_refl eq_refl) as [_ [Hfirst Hsame]].
  split; [exact (Hempty eq_refl)|].
  split; [exact (Hfirst clean [broken] summaryFormatter (js "problems found") H2)|].
  exact (Hsame clean [broken] summaryFormatter (js "problems found")
               emptyWorld (js "c") [] summaryFormatter [] H2 H1).
Defined.

(** * Further properties of the Pattern Compiler and the Path Filter *)

Section FurtherFilterFacts.

Import PatternCompiler Regex.

(** X1.  [createFilter] never throws: every string pattern compiles
    to a valid expression.  Each option yields one compiled entry per
    pattern; an expression given by the caller is used as the very
    same object; the store is only extended, by fresh expressions
    without flags. *)
Theorem createFilter_never_throws (include exclude : PathOption) (st0 : Store) :
  exists f ext,
    createFilter include exclude st0 = Some (f, st0 ++ ext) /\
    length (compiledInclude f) = length (patternsOf include) /\
    length (compiledExclude f) = length (patternsOf exclude) /\
    Forall fresh ext /\
    (forall i r, patternsOf include !! i = Some (PRegExp r) ->
                 compiledInclude f !! i = Some r) /\
    (forall i r, patternsOf exclude !! i = Some (PRegExp r) ->
                 compiledExclude f !! i = Some r).
Proof.
  destruct (createFilter_some include exclude st0) as [f [st [E [Li Le]]]].
  pose proof E as E'. unfold createFilter in E'. rewrite handlePath_compileAll in E'.
  destruct (compileAll (patternsOf include) st0) as [[ci st1]|] eqn:E1; [|discriminate].
  rewrite handlePath_compileAll in E'.
  destruct (compileAll (patternsOf exclude) st1) as [[ce st2]|] eqn:E2; [|discriminate].
  injection E' as <- <-.
  destruct (compileAll_extends _ _ _ _ E1) as [ext1 [-> [F1 H1]]].
  destruct (compileAll_extends _ _ _ _ E2) as [ext2 [-> [F2 H2]]].
  exists (mkFilter ci ce), (ext1 ++ ext2). rewrite app_assoc.
  split; [exact E|]. simpl in *. repeat split; auto. apply Forall_app; auto.
Qed.

(** X2.  The pass that replaces [**] never changes anything: after
    the first pass every star is preceded by a backslash, so the
    escaped text is the same with the middle pass left out. *)
Theorem double_star_pass_never_fires (pattern : JsString) :
  replaceStarStar (escapeSpecial pattern) = escapeSpecial pattern /\
  escaped pattern = replaceStar (escapeSpecial pattern).
Proof.
  split; [apply replaceStarStar_escapeSpecial|].
  unfold escaped. now rewrite replaceStarStar_escapeSpecial.
Qed.

(** X3.  A string pattern with a star in it compiles to an expression
    that matches no path whatever. *)
Theorem star_pattern_never_matches (pattern P : JsString) :
  In "*" pattern -> globMatches pattern P = Some false.
Proof. intros H. now apply star_pattern_matches_nothing. Qed.

(** The pattern [*.js]. *)
Lemma star_pattern_never_matches_witness :
  In "*" (js "*.js") /\ globMatches (js "*.js") (js "a.js") = Some false.
Proof.
  assert (H : In "*" (js "*.js")) by (left; reflexivity).
  split; [exact H|]. exact (star_pattern_never_matches (js "*.js") (js "a.js") H).
Defined.

Lemma compileAll_strings (ss : list JsString) (st : Store) :
  compileAll (map PString ss) st
  = Some (seq (length st) (length ss), st ++ map compiledRegExp ss).
Proof.
  revert st. induction ss as [|s ss IH]; intros st; simpl.
  - now rewrite app_nil_r.
  - rewrite RegExpCreate_compiledSource. fold (compiledRegExp s).
    rewrite IH. rewrite length_app, Nat.add_1_r, <- app_assoc. reflexivity.
Qed.

Lemma matches_compiled (s P : JsString) :
  matchesPattern (compiledRegExp s) P = true <-> (~ In "*" s /\ P = s).
Proof.
  pose proof (globMatches_compiled s P) as H.
  unfold globMatches in H. rewrite RegExpCreate_compiledSource in H.
  cbn [option_map] in H. fold (compiledRegExp s) in H. injection H as H.
  rewrite H. clear H.
  destruct (in_dec N.eq_dec "*" s) as [Hs|Hs].
  - rewrite matchTerms_star_pattern by assumption. split; [discriminate|tauto].
  - rewrite (termsOf_no_star _ Hs).
    destruct (List.list_eq_dec N.eq_dec P s) as [->|Hne].
    + rewrite literal_match_self. tauto.
    + rewrite literal_match_other by assumption. split; [discriminate|tauto].
Qed.

Lemma existsb_matchesAt_seq (pre post : Store) (ss : list JsString) (P : JsString) :
  existsb (matchesAt (pre ++ map compiledRegExp ss ++ post) P)
          (seq (length pre) (length ss))
  = existsb (fun s => matchesPattern (compiledRegExp s) P) ss.
Proof.
  revert pre. induction ss as [|s ss IH]; intros pre; [reflexivity|].
  cbn [length seq existsb map]. f_equal.
  - unfold matchesAt. rewrite lookup_app_r by lia. now rewrite Nat.sub_diag.
  - specialize (IH (pre ++ [compiledRegExp s])).
    rewrite length_app, Nat.add_1_r, <- app_assoc in IH. exact IH.
Qed.

Lemma existsb_compiled (ss : list JsString) (P : JsString) :
  existsb (fun s => matchesPattern (compiledRegExp s) P) ss = true <->
  In P ss /\ ~ In "*" P.
Proof.
  rewrite existsb_exists. split.
  - intros [s [Hin Hm]]. apply matches_compiled in Hm. destruct Hm as [Hs ->]. auto.
  - intros [Hin Hs]. exists P. split; [assumption|]. now apply matches_compiled.
Qed.

(** X4.  With arrays of strings for both options, the filter is
    literal comparison: a path is rejected when it is equal to one of
    the exclude strings, and otherwise accepted when the include array
    is empty or the path is equal to one of the include strings.  A
    string with a star in it is equal to no path for this purpose. *)
Theorem string_patterns_compare_literally (incl excl : list JsString) (st0 : Store) :
  exists f st,
    createFilter (strings incl) (strings excl) st0 = Some (f, st) /\
    forall history P,
      fst (filter f P (afterCalls f history st)) = true <->
      ~ (In P excl /\ ~ In "*" P) /\
      (incl = [] \/ (In P incl /\ ~ In "*" P)).
Proof.
  destruct (createFilter_some (strings incl) (strings excl) st0) as [f [st [E _]]].
  exists f, st. split; [exact E|].
  assert (Hc : statelessConfig (strings incl) (strings excl) st0).
  { unfold statelessConfig, strings. cbn [patternsOf]. rewrite <- map_app.
    induction (incl ++ excl) as [|s l IHl]; constructor; [exact I|exact IHl]. }
  destruct (createFilter_stateless _ _ _ _ _ E Hc) as [Hi He].
  unfold createFilter, strings, handlePath in E.
  rewrite compileAll_strings in E. rewrite compileAll_strings in E.
  injection E as <- <-.
  intros history P.
  rewrite (afterCalls_stateless _ _ _ Hi He), (filter_stateless _ _ _ Hi He).
  cbn [fst]. unfold pureFilter. cbn [compiledInclude compiledExclude].
  rewrite length_seq.
  pose proof (existsb_matchesAt_seq (st0 ++ map compiledRegExp incl) [] excl P) as Xe.
  rewrite app_nil_r in Xe. rewrite Xe. clear Xe.
  pose proof (existsb_matchesAt_seq st0 (map compiledRegExp excl) incl P) as Xi.
  rewrite app_assoc in Xi. rewrite Xi. clear Xi.
  pose proof (existsb_compiled excl P) as Ce.
  pose proof (existsb_compiled incl P) as Ci.
  destruct (existsb _ excl).
  - split; [discriminate|]. intros [Hn _]. exfalso. apply Hn. now apply Ce.
  - assert (Hne : ~ (In P excl /\ ~ In "*" P)).
    { intros H. apply Ce in H. discriminate. }
    destruct incl as [|s incl]; cbn [length Nat.eqb].
    + split; auto.
    + rewrite Ci. split.
      * intros H. split; [assumption|]. now right.
      * intros [_ [H|H]]; [discriminate|assumption].
Qed.

Lemma existsb_Permutation {A} (g : A -> bool) (l l' : list A) :
  Permutation l l' -> existsb g l = existsb g l'.
Proof.
  induction 1 as [|x l l' _ IH|x y l|l l' l'' _ IH1 _ IH2]; simpl.
  - reflexivity.
  - now rewrite IH.
  - destruct (g x), (g y); reflexivity.
  - now rewrite IH1.
Qed.

(** X6.  When no expression carries the [g] or [y] flag, the order of
    the patterns within the include list and within the exclude list
    does not matter: two filters whose lists are rearrangements of each
    other give the same answer and leave the store alike. *)
Theorem pattern_order_is_irrelevant (f f' : Filter) (P : JsString) (st : Store) :
  Permutation (compiledInclude f) (compiledInclude f') ->
  Permutation (compiledExclude f) (compiledExclude f') ->
  Forall (statelessAt st) (compiledInclude f) ->
  Forall (statelessAt st) (compiledExclude f) ->
  filter f P st = filter f' P st.
Proof.
  intros Pi Pe Hi He.
  assert (Hi' : Forall (statelessAt st) (compiledInclude f')) by now rewrite <- Pi.
  assert (He' : Forall (statelessAt st) (compiledExclude f')) by now rewrite <- Pe.
  rewrite (filter_stateless _ _ _ Hi He), (filter_stateless _ _ _ Hi' He').
  unfold pureFilter.
  rewrite (existsb_Permutation _ _ _ Pi), (existsb_Permutation _ _ _ Pe).
  now rewrite (Permutation_length Pi).
Qed.

(** Two expressions without flags, listed in either order. *)
Lemma pattern_order_is_irrelevant_witness :
  Permutation [0; 1] [1; 0] /\
  Forall (statelessAt [nodeModules; setLastIndex nodeModules 0]) [0; 1] /\
  filter (mkFilter [0; 1] []) (js "x/node_modules/y") [nodeModules; setLastIndex nodeModules 0]
  = filter (mkFilter [1; 0] []) (js "x/node_modules/y") [nodeModules; setLastIndex nodeModules 0].
Proof.
  assert (Hp : Permutation [0; 1] [1; 0]) by apply perm_swap.
  assert (Hs : Forall (statelessAt [nodeModules; setLastIndex nodeModules 0]) [0; 1]).
  { repeat constructor; eexists; (split; [reflexivity|split; reflexivity]). }
  split; [exact Hp|]. split; [exact Hs|].
  exact (pattern_order_is_irrelevant (mkFilter [0; 1] []) (mkFilter [1; 0] [])
           (js "x/node_modules/y") [nodeModules; setLastIndex nodeModules 0]
           Hp (Permutation_refl []) Hs (Forall_nil_2 _)).
Defined.

(** X7.  A call of the filter keeps the store as it is up to
    [lastIndex]: no object is added or removed, no object changes its
    pattern or its flags, and an object without the [g] and [y] flags
    is not changed at all. *)
Theorem filter_changes_only_lastIndex (f : Filter) (P : JsString) (st : Store) :
  length (snd (filter f P st)) = length st /\
  forall r R,
    st !! r = Some R ->
    exists R',
      snd (filter f P st) !! r = Some R' /\
      RegExpMatcher R' = RegExpMatcher R /\
      global R' = global R /\
      sticky R' = sticky R /\
      (global R = false -> sticky R = false -> R' = R).
Proof. exact (filter_kept f P st). Qed.

(** X5.  Whatever the flags and however the expressions are shared: if
    [test] of some exclude expression would succeed on the path in the
    current store, the filter answers [false]. *)
Theorem exclude_test_hit_rejects (f : Filter) (P : JsString) (st : Store)
        (r : loc) (R : RegExp) :
  In r (compiledExclude f) ->
  st !! r = Some R ->
  fst (RegExpBuiltinExec R P) <> None ->
  fst (filter f P st) = false.
Proof. apply exclude_hit_rejects. Qed.

(** The exclude list [[/a/g]] and the path [a]. *)
Lemma exclude_test_hit_rejects_witness :
  In 0 (compiledExclude (mkFilter [] [0])) /\
  [globalA] !! 0 = Some globalA /\
  fst (RegExpBuiltinExec globalA (js "a")) <> None /\
  fst (filter (mkFilter [] [0]) (js "a") [globalA]) = false.
Proof.
  assert (H1 : In 0 (compiledExclude (mkFilter [] [0]))) by (left; reflexivity).
  assert (H3 : fst (RegExpBuiltinExec globalA (js "a")) <> None) by discriminate.
  split; [exact H1|]. split; [reflexivity|]. split; [exact H3|].
  exact (exclude_test_hit_rejects (mkFilter [] [0]) (js "a") [globalA] 0 globalA
           H1 eq_refl H3).
Defined.

End FurtherFilterFacts.

(** * Further properties of the [transform] hook *)

Section FurtherPolicyFacts.

Variable pluginOptions : PluginOptions.
Variable pathFilter : Filter.
Variable eslint : ESLint.
Variable cwd : JsString.
Variable relative : JsString -> JsString -> JsString.

(** The hook, its parts and the notions above at these parameters. *)
Abbreviation transform' := (transform pluginOptions pathFilter eslint cwd relative).
Abbreviation tryBlock' := (tryBlock pluginOptions eslint cwd relative).
Abbreviation catchBlock' := (catchBlock pluginOptions).
Abbreviation shouldAbort' := (shouldAbort pluginOptions).
Abbreviation validationError' := (validationError cwd relative).
Abbreviation afterFilter' := (afterFilter pathFilter).
Abbreviation linted' := (linted pluginOptions pathFilter eslint).
Abbreviation lintedWorld' := (lintedWorld pluginOptions pathFilter eslint).
Abbreviation engineFailure' := (engineFailure pluginOptions eslint).

(** X8.  A file that the filter rejects is not linted: the hook
    answers [null] without calling the engine, the formatter or the
    console, and without writing to storage. *)
Theorem filtered_out_file_is_not_linted (w : World) (code id : JsString) :
  fst (filter pathFilter id (store w)) = false ->
  fst (transform' code id w) = Normal null /\
  log (snd (transform' code id w)) = log w /\
  disk (snd (transform' code id w)) = disk w.
Proof.
  intros H.
  rewrite (transform_filtered_out pluginOptions pathFilter eslint cwd relative _ _ _ H).
  repeat split.
Qed.

(** X9.  A file that the engine reports as ignored is not linted: the
    hook answers [null] after the one call to [isPathIgnored]; no text
    is linted, formatted or printed, and nothing is written. *)
Theorem ignored_file_is_not_linted (w : World) (code id : JsString) :
  fst (filter pathFilter id (store w)) = true ->
  isPathIgnored eslint id = Normal true ->
  fst (transform' code id w) = Normal null /\
  log (snd (transform' code id w)) = log w ++ [EvIsPathIgnored id] /\
  disk (snd (transform' code id w)) = disk w.
Proof.
  intros Hf Hi.
  rewrite (transform_passed pluginOptions pathFilter eslint cwd relative _ _ _ Hf).
  unfold tryBlock, afterFilter, call, mbind, M_bind, mret, M_ret.
  rewrite Hi. repeat split.
Qed.

(** The ways in which the [try] block can end: normally, in the abort
    on the first result of a linted cycle, or in an error thrown by a
    collaborator. *)
Lemma tryBlock_cases (w w1 : World) (code id : JsString) (c : Completion unit) :
  tryBlock' code id (afterFilter' id w) = (c, w1) ->
  c = Normal tt \/
  (exists result rest fmt text,
     isPathIgnored eslint id = Normal false /\
     lintText eslint code id = Normal (result :: rest) /\
     (fix_ pluginOptions = true ->
      fst (outputFixes eslint (result :: rest) (disk w)) = Normal tt) /\
     loadFormatter eslint (formatter pluginOptions) = Normal fmt /\
     format fmt (result :: rest) = Normal text /\
     shouldAbort' result = true /\
     c = Throw (validationError' id result)) \/
  (exists e, c = Throw e /\ engineFailure' w code id e).
Proof.
  unfold tryBlock, afterFilter, call, callOutputFixes, consoleLog, emit.
  unfold mbind, M_bind, mret, M_ret, mthrow, M_throw.
  cbn [store disk log].
  destruct (isPathIgnored eslint id) as [[|]|e0] eqn:Hi; cbn [store disk log];
    [intros H; injection H as <- <-; now left| |
     intros H; injection H as <- <-; right; right; exists e0; split;
       [reflexivity|now apply ThrowsIsPathIgnored]].
  destruct (lintText eslint code id) as [[|result rest]|e0] eqn:Hl;
    cbn [length Nat.ltb Nat.leb andb store disk log];
    [rewrite andb_false_r; intros H; injection H as <- <-; now left| |
     intros H; injection H as <- <-; right; right; exists e0; split;
       [reflexivity|now apply ThrowsLintText]].
  rewrite andb_true_r.
  assert (Hne : result :: rest <> []) by discriminate.
  destruct (fix_ pluginOptions) eqn:Hfix; cbn [store disk log].
  - destruct (outputFixes eslint (result :: rest) (disk w)) as [[[]|e0] d] eqn:Hx;
      cbn [store disk log];
      [|intros H; injection H as <- <-; right; right; exists e0; split;
          [reflexivity|eapply ThrowsOutputFixes; eauto; now rewrite Hx]].
    assert (Hx' : fix_ pluginOptions = true ->
                  fst (outputFixes eslint (result :: rest) (disk w)) = Normal tt)
      by (intros _; now rewrite Hx).
    assert (Hx'' : true = true ->
                   fst (outputFixes eslint (result :: rest) (disk w)) = Normal tt)
      by (intros _; now rewrite Hx).
    destruct (loadFormatter eslint (formatter pluginOptions)) as [fmt|e0] eqn:Hm;
      cbn [store disk log];
      [|intros H; injection H as <- <-; right; right; exists e0; split;
          [reflexivity|eapply ThrowsLoadFormatter; eauto]].
    destruct (format fmt (result :: rest)) as [text|e0] eqn:Ht;
      cbn [store disk log];
      [|intros H; injection H as <- <-; right; right; exists e0; split;
          [reflexivity|eapply ThrowsFormat; eauto]].
    destruct (truthy text); cbn [store disk log];
      destruct (shouldAbort' result) eqn:Ha; intros H; injection H as <- <-;
      solve [now left | right; left; exists result, rest, fmt, text; auto 10].
  - assert (Hx' : fix_ pluginOptions = true ->
                  fst (outputFixes eslint (result :: rest) (disk w)) = Normal tt)
      by (intros Hc; congruence).
    assert (Hx'' : false = true ->
                   fst (outputFixes eslint (result :: rest) (disk w)) = Normal tt)
      by discriminate.
    destruct (loadFormatter eslint (formatter pluginOptions)) as [fmt|e0] eqn:Hm;
      cbn [store disk log];
      [|intros H; injection H as <- <-; right; right; exists e0; split;
          [reflexivity|eapply ThrowsLoadFormatter; eauto]].
    destruct (format fmt (result :: rest)) as [text|e0] eqn:Ht;
      cbn [store disk log];
      [|intros H; injection H as <- <-; right; right; exists e0; split;
          [reflexivity|eapply ThrowsFormat; eauto]].
    destruct (truthy text); cbn [store disk log];
      destruct (shouldAbort' result) eqn:Ha; intros H; injection H as <- <-;
      solve [now left | right; left; exists result, rest, fmt, text; auto 10].
Qed.

Lemma thrown_cases (w : World) (code id : JsString) (e : Error) :
  fst (transform' code id w) = Throw e ->
  (exists result rest fmt text,
     linted' w code id (result :: rest) fmt text /\
     shouldAbort' result = true /\
     e = validationError' id result) \/
  (exists e0 text,
     engineFailure' w code id e0 /\
     messageSlot e0 = StringMessage text /\
     includes validationMarker text = false /\
     throwOnError pluginOptions = true /\
     e = newError (js "ESLint plugin error: " ++ text)) \/
  (exists text,
     engineFailure' w code id e /\
     messageSlot e = StringMessage text /\
     includes validationMarker text = true) \/
  (exists e0 complaint,
     engineFailure' w code id e0 /\
     messageSlot e0 = NoStringMessage complaint /\
     e = newTypeError complaint).
Proof.
  intros H. destruct (fst (filter pathFilter id (store w))) eqn:Hf.
  - rewrite (transform_passed pluginOptions pathFilter eslint cwd relative _ _ _ Hf) in H.
    destruct (tryBlock' code id (afterFilter' id w)) as [c w1] eqn:Ht.
    apply tryBlock_cases in Ht.
    destruct Ht as [->|[(result & rest & fmt & text & Hi & Hl & Hx & Hm & Hfm & Ha & ->)
                       |(e1 & -> & He1)]].
    + discriminate H.
    + cbn in H. injection H as <-. left. exists result, rest, fmt, text.
      repeat split; assumption.
    + unfold catchBlock, consoleError, emit, mbind, M_bind, mret, M_ret, mthrow, M_throw in H.
      destruct (messageSlot e1) as [text|complaint] eqn:Hs.
      * destruct (includes validationMarker text) eqn:Hmk; cbn [negb] in H.
        -- cbn in H. injection H as <-. right. right. left. exists text. auto.
        -- destruct (throwOnError pluginOptions) eqn:Hte; cbn in H; [|discriminate H].
           injection H as <-. right. left. exists e1, text. auto.
      * cbn in H. injection H as <-. right. right. right. exists e1, complaint. auto.
  - rewrite (transform_filtered_out pluginOptions pathFilter eslint cwd relative _ _ _ Hf) in H.
    discriminate H.
Qed.

(** X10.  Every error the hook throws is of one of four kinds: the
    abort on the first result of a linted cycle; a fresh
    [ESLint plugin error] standing for a collaborator's error, thrown
    only with [throwOnError] set; a collaborator's own error whose
    message contains [ESLint validation failed]; or the [TypeError]
    raised by the [catch] block itself when a collaborator has thrown a
    value without a string message. *)
Theorem thrown_errors_are_of_four_kinds (w : World) (code id : JsString) (e : Error) :
  fst (transform' code id w) = Throw e ->
  (exists result rest fmt text,
     linted' w code id (result :: rest) fmt text /\
     shouldAbort' result = true /\
     e = validationError' id result) \/
  (exists e0 text,
     engineFailure' w code id e0 /\
     messageSlot e0 = StringMessage text /\
     includes validationMarker text = false /\
     throwOnError pluginOptions = true /\
     e = newError (js "ESLint plugin error: " ++ text)) \/
  (exists text,
     engineFailure' w code id e /\
     messageSlot e = StringMessage text /\
     includes validationMarker text = true) \/
  (exists e0 complaint,
     engineFailure' w code id e0 /\
     messageSlot e0 = NoStringMessage complaint /\
     e = newTypeError complaint).
Proof. apply thrown_cases. Qed.

(** X11.  With [throwOnError] and [throwOnWarning] both off, the hook
    does not fail the build on account of an error with a string
    message that a collaborator throws: it answers [null] for every
    file, provided that whatever the collaborators throw in the cycle
    has a string message without the text [ESLint validation failed]. *)
Theorem hook_never_throws_with_flags_off (w : World) (code id : JsString) :
  throwOnError pluginOptions = false ->
  throwOnWarning pluginOptions = false ->
  (forall e, engineFailure' w code id e ->
             exists text, messageSlot e = StringMessage text /\
                          includes validationMarker text = false) ->
  fst (transform' code id w) = Normal null.
Proof.
  intros He Hw Hunmarked.
  destruct (fst (transform' code id w)) as [[]|e] eqn:H; [reflexivity|].
  exfalso. apply thrown_cases in H.
  destruct H as [(result & rest & fmt & text & _ & Ha & _)
                |[(e0 & text & _ & _ & _ & Hte & _)
                 |[(text & Hf & Hs & Hm)|(e0 & complaint & Hf & Hs & _)]]].
  - unfold shouldAbort in Ha. rewrite He, Hw, !andb_false_r in Ha. discriminate Ha.
  - congruence.
  - destruct (Hunmarked _ Hf) as (text' & Hs' & Hm'). congruence.
  - destruct (Hunmarked _ Hf) as (text' & Hs' & _). congruence.
Qed.

(** X20.  A value without a string message thrown by a collaborator
    never reaches the policy of the [catch] block: evaluating
    [error.message.includes] throws a [TypeError], which leaves the
    hook whatever [throwOnError] says; the value itself is neither
    written to [console.error] nor thrown on. *)
Theorem value_without_message_raises_type_error (w : World) (code id : JsString)
        (e : Error) (complaint : JsString) :
  fst (filter pathFilter id (store w)) = true ->
  engineFailure' w code id e ->
  messageSlot e = NoStringMessage complaint ->
  fst (transform' code id w) = Throw (newTypeError complaint) /\
  noConsoleError w (snd (transform' code id w)).
Proof.
  intros Hf He Hs.
  destruct (tryBlock_engineFailure pluginOptions pathFilter eslint cwd relative
              _ _ _ _ He) as [w1 Ht].
  rewrite (transform_passed pluginOptions pathFilter eslint cwd relative _ _ _ Hf).
  rewrite Ht. unfold catchBlock. rewrite Hs. cbn [mthrow M_throw fst snd].
  split; [reflexivity|].
  exact (tryBlock_quiet pluginOptions pathFilter eslint cwd relative _ _ _ _ _ Ht).
Qed.

(** What the [try] block leaves behind: the store as the filter left
    it, and storage as it was unless [outputFixes] has been called. *)
Lemma tryBlock_footprint (w w1 : World) (code id : JsString) (c : Completion unit) :
  tryBlock' code id (afterFilter' id w) = (c, w1) ->
  store w1 = snd (filter pathFilter id (store w)) /\
  (disk w1 = disk w \/
   exists results,
     lintText eslint code id = Normal results /\
     results <> [] /\
     fix_ pluginOptions = true /\
     disk w1 = snd (outputFixes eslint results (disk w))).
Proof.
  unfold tryBlock, afterFilter, call, callOutputFixes, consoleLog, emit.
  unfold mbind, M_bind, mret, M_ret, mthrow, M_throw.
  cbn [store disk log].
  destruct (isPathIgnored eslint id) as [[|]|e0]; cbn [store disk log];
    [intros H; injection H as <- <-; auto| |intros H; injection H as <- <-; auto].
  destruct (lintText eslint code id) as [[|result rest]|e0] eqn:Hl;
    cbn [length Nat.ltb Nat.leb andb store disk log];
    [rewrite andb_false_r; intros H; injection H as <- <-; auto| |
     intros H; injection H as <- <-; auto].
  rewrite andb_true_r.
  assert (Hne : result :: rest <> []) by discriminate.
  destruct (fix_ pluginOptions) eqn:Hfix; cbn [store disk log].
  - destruct (outputFixes eslint (result :: rest) (disk w)) as [[[]|e0] d] eqn:Hx;
      cbn [store disk log].
    + destruct (loadFormatter eslint (formatter pluginOptions)) as [fmt|e0];
        cbn [store disk log];
        [|intros H; injection H as <- <-; split; [reflexivity|right; exists (result :: rest); rewrite Hx; auto]].
      destruct (format fmt (result :: rest)) as [text|e0]; cbn [store disk log];
        [|intros H; injection H as <- <-; split; [reflexivity|right; exists (result :: rest); rewrite Hx; auto]].
      destruct (truthy text); cbn [store disk log];
        destruct (shouldAbort' result); intros H; injection H as <- <-;
        (split; [reflexivity|right; exists (result :: rest); rewrite Hx; auto]).
    + intros H; injection H as <- <-; split; [reflexivity|right; exists (result :: rest); rewrite Hx; auto].
  - destruct (loadFormatter eslint (formatter pluginOptions)) as [fmt|e0];
      cbn [store disk log]; [|intros H; injection H as <- <-; auto].
    destruct (format fmt (result :: rest)) as [text|e0]; cbn [store disk log];
      [|intros H; injection H as <- <-; auto].
    destruct (truthy text); cbn [store disk log];
      destruct (shouldAbort' result); intros H; injection H as <- <-; auto.
Qed.

(** X12.  The hook writes to storage through [outputFixes] only:
    storage is unchanged at the end of a cycle unless [fix] is on and
    the engine returned a non-empty list, in which case it is what
    [outputFixes] left; with [fix] off it is never changed.  The store
    of expressions is touched by the filter alone. *)
Theorem storage_is_written_by_fixes_only (w : World) (code id : JsString) :
  (fix_ pluginOptions = false -> disk (snd (transform' code id w)) = disk w) /\
  (disk (snd (transform' code id w)) = disk w \/
   exists results,
     lintText eslint code id = Normal results /\
     results <> [] /\
     fix_ pluginOptions = true /\
     disk (snd (transform' code id w)) = snd (outputFixes eslint results (disk w))) /\
  store (snd (transform' code id w)) = snd (filter pathFilter id (store w)).
Proof.
  assert (H : store (snd (transform' code id w)) = snd (filter pathFilter id (store w)) /\
              (disk (snd (transform' code id w)) = disk w \/
               exists results,
                 lintText eslint code id = Normal results /\
                 results <> [] /\
                 fix_ pluginOptions = true /\
                 disk (snd (transform' code id w))
                 = snd (outputFixes eslint results (disk w)))).
  { destruct (fst (filter pathFilter id (store w))) eqn:Hf.
    - destruct (tryBlock' code id (afterFilter' id w)) as [c w1] eqn:Ht.
      destruct (transform_world pluginOptions pathFilter eslint cwd relative
                  _ _ _ _ _ Hf Ht) as [evs ->].
      cbn [addLog store disk]. now apply tryBlock_footprint in Ht.
    - rewrite (transform_filtered_out pluginOptions pathFilter eslint cwd relative
                 _ _ _ Hf).
      cbn [snd afterFilter store disk]. auto. }
  destruct H as [Hs Hd]. split; [|split; assumption].
  intros Hfix. destruct Hd as [Hd|(results & _ & _ & Hc & _)]; [assumption|congruence].
Qed.

(** X18.  A linted cycle leaves the same trace whether or not it ends
    in the abort: the two calls to the engine, [outputFixes] if [fix]
    is on, then the formatter loaded once and run once on the whole
    list, then its output printed once if it is not empty.  The
    decision to abort comes after the printing; nothing is written to
    [console.error]. *)
Theorem linted_cycle_trace (w : World) (code id : JsString) (result : LintResult)
        (rest : list LintResult) (fmt : Formatter) (text : JsString) :
  linted' w code id (result :: rest) fmt text ->
  log (snd (transform' code id w))
  = log w ++ [EvIsPathIgnored id; EvLintText code id]
          ++ (if fix_ pluginOptions then [EvOutputFixes (result :: rest)] else [])
          ++ [EvLoadFormatter (formatter pluginOptions); EvFormat (result :: rest)]
          ++ (if truthy text then [EvConsoleLog text] else []).
Proof.
  intros H.
  now rewrite (transform_linted pluginOptions pathFilter eslint cwd relative
                 _ _ _ _ _ _ _ H).
Qed.

End FurtherPolicyFacts.

(** * Properties of the expressions of [defaultOptions] *)

Section TreeFacts.

Import RegexTree.

Lemma run_star_nil (a : Regex.atom) (k : Cont) (i : nat) :
  run (Star a) k i [] = k i [].
Proof. reflexivity. Qed.

Lemma run_star_cons (a : Regex.atom) (k : Cont) (i : nat) (c : codeUnit) (s : JsString) :
  run (Star a) k i (c :: s)
  = if Regex.atomMatches a c
    then match run (Star a) k (S i) s with
         | Some e => Some e
         | None => k i (c :: s)
         end
    else k i (c :: s).
Proof. reflexivity. Qed.

Lemma run_star_iff (a : Regex.atom) (k : Cont) (i : nat) (s : JsString) :
  (exists e, run (Star a) k i s = Some e) <->
  exists s1 s2,
    s = s1 ++ s2 /\ den (Star a) i s1 s2 /\ exists e, k (i + length s1) s2 = Some e.
Proof.
  cbn [den]. revert i. induction s as [|c s IHs]; intros i.
  - rewrite run_star_nil. split.
    + intros He. exists [], []. rewrite Nat.add_0_r. auto.
    + intros (s1 & s2 & Hs & Hd & He). symmetry in Hs.
      apply app_eq_nil in Hs. destruct Hs as [-> ->].
      now rewrite Nat.add_0_r in He.
  - rewrite run_star_cons. destruct (Regex.atomMatches a c) eqn:Ea.
    + split.
      * destruct (run (Star a) k (S i) s) as [e1|] eqn:E1.
        -- intros _. assert (H1 : exists e, run (Star a) k (S i) s = Some e) by eauto.
           apply IHs in H1. destruct H1 as (s1 & s2 & -> & Hd & He).
           exists (c :: s1), s2. cbn [length]. rewrite Nat.add_succ_r.
           split; [reflexivity|]. split; [constructor; assumption|exact He].
        -- intros He. exists [], (c :: s). rewrite Nat.add_0_r. auto.
      * intros (s1 & s2 & Hs & Hd & He). destruct s1 as [|c1 s1].
        -- cbn in Hs. subst s2. rewrite Nat.add_0_r in He.
           destruct (run (Star a) k (S i) s); [eauto|exact He].
        -- cbn in Hs. injection Hs as <- ->.
           apply Forall_cons_iff in Hd. destruct Hd as [_ Hd].
           assert (H1 : exists e, run (Star a) k (S i) (s1 ++ s2) = Some e).
           { apply IHs. exists s1, s2. cbn [length] in He.
             rewrite Nat.add_succ_r in He. auto. }
           destruct H1 as [e1 ->]. eauto.
    + split.
      * intros He. exists [], (c :: s). rewrite Nat.add_0_r. auto.
      * intros (s1 & s2 & Hs & Hd & He). destruct s1 as [|c1 s1].
        -- cbn in Hs. subst s2. now rewrite Nat.add_0_r in He.
        -- cbn in Hs. injection Hs as <- ->.
           apply Forall_cons_iff in Hd. destruct Hd as [Hc _]. congruence.
Qed.

Lemma run_iff (r : re) :
  forall (k : Cont) (i : nat) (s : JsString),
    (exists e, run r k i s = Some e) <->
    exists s1 s2,
      s = s1 ++ s2 /\ den r i s1 s2 /\ exists e, k (i + length s1) s2 = Some e.
Proof.
  induction r as [|a| | |r1 IH1 r2 IH2|r1 IH1 r2 IH2|r1 IH1|a]; intros k i s;
    [cbn [run den]..|].
  - split.
    + intros He. exists [], s. rewrite Nat.add_0_r. auto.
    + intros (s1 & s2 & -> & -> & He). now rewrite Nat.add_0_r in He.
  - split.
    + destruct s as [|c s]; [intros [e He]; discriminate|].
      destruct (Regex.atomMatches a c) eqn:Ea; [|intros [e He]; discriminate].
      intros He. exists [c], s. rewrite Nat.add_1_r. eauto 6.
    + intros (s1 & s2 & -> & (c & -> & Ea) & He). cbn. rewrite Ea.
      now rewrite Nat.add_1_r in He.
  - split.
    + destruct (Nat.eqb_spec i 0) as [->|_]; [|intros [e He]; discriminate].
      intros He. exists [], s. auto.
    + intros (s1 & s2 & -> & (-> & ->) & He). exact He.
  - split.
    + destruct s as [|c s]; [|intros [e He]; discriminate].
      intros He. exists [], []. rewrite Nat.add_0_r. auto.
    + intros (s1 & s2 & -> & (-> & ->) & He). now rewrite Nat.add_0_r in He.
  - rewrite IH1. split.
    + intros (u & rest & -> & Hu & He). apply IH2 in He.
      destruct He as (v & s2 & -> & Hv & He).
      exists (u ++ v), s2. rewrite <- app_assoc, length_app, Nat.add_assoc.
      split; [reflexivity|]. split; [|exact He]. exists u, v. auto.
    + intros (s1 & s2 & -> & (u & v & -> & Hu & Hv) & He).
      exists u, (v ++ s2). rewrite <- app_assoc. split; [reflexivity|].
      split; [exact Hu|]. apply IH2. exists v, s2.
      rewrite length_app, Nat.add_assoc in He. auto.
  - split.
    + destruct (run r1 k i s) as [e1|] eqn:E1.
      * intros _. assert (H1 : exists e, run r1 k i s = Some e) by eauto.
        apply IH1 in H1. destruct H1 as (s1 & s2 & -> & Hd & He). exists s1, s2. auto.
      * intros H2. apply IH2 in H2. destruct H2 as (s1 & s2 & -> & Hd & He).
        exists s1, s2. auto.
    + intros (s1 & s2 & -> & [Hd|Hd] & He).
      * assert (H1 : exists e, run r1 k i (s1 ++ s2) = Some e)
          by (apply IH1; eauto 6).
        destruct H1 as [e1 ->]. eauto.
      * destruct (run r1 k i (s1 ++ s2)); [eauto|]. apply IH2. eauto 6.
  - split.
    + destruct (run r1 k i s) as [e1|] eqn:E1.
      * intros _. assert (H1 : exists e, run r1 k i s = Some e) by eauto.
        apply IH1 in H1. destruct H1 as (s1 & s2 & -> & Hd & He). exists s1, s2. auto.
      * intros He. exists [], s. rewrite Nat.add_0_r. auto.
    + intros (s1 & s2 & -> & [->|Hd] & He).
      * rewrite Nat.add_0_r in He. cbn. destruct (run r1 k i s2); [eauto|exact He].
      * assert (H1 : exists e, run r1 k i (s1 ++ s2) = Some e)
          by (apply IH1; eauto 6).
        destruct H1 as [e1 ->]. eauto.
  - apply run_star_iff.
Qed.

(** [test] on a literal without flags: the tree matches somewhere. *)
Lemma matches_literal_iff (r : re) (P : JsString) :
  matchesPattern (regexpLiteral r) P = true <->
  exists before s1 s2, P = before ++ s1 ++ s2 /\ den r (length before) s1 s2.
Proof.
  unfold matchesPattern, regexpLiteral, RegExpBuiltinExec, setLastIndex.
  cbn [global sticky RegExpMatcher lastIndex orb]. rewrite Nat.sub_0_r.
  pose proof (execLoop_some_iff (matcherOf r) P (S (length P)) 0) as X.
  destruct (execLoop (matcherOf r) false P (S (length P)) 0) as [e0|]; cbn [fst].
  - split; [intros _|reflexivity].
    destruct (proj1 X (ex_intro _ e0 eq_refl)) as (j & Hj & He).
    unfold matcherOf in He. apply run_iff in He.
    destruct He as (s1 & s2 & Hs & Hd & _).
    exists (firstn j P), s1, s2. rewrite <- Hs, firstn_skipn.
    split; [reflexivity|]. rewrite length_firstn, Nat.min_l by lia. exact Hd.
  - split; [discriminate|]. intros (before & s1 & s2 & -> & Hd). exfalso.
    assert (H : exists e, @None nat = Some e); [|destruct H; discriminate].
    apply X. exists (length before). split.
    + rewrite length_app. lia.
    + unfold matcherOf. apply run_iff. exists s1, s2.
      rewrite skipn_app, Nat.sub_diag, skipn_all. cbn [skipn app]. eauto.
Qed.

Lemma den_lit (l : JsString) (i : nat) (s1 s2 : JsString) :
  den (lit l) i s1 s2 <-> s1 = l.
Proof.
  revert i s1. induction l as [|c l IH]; intros i s1; cbn [lit fold_right den].
  - reflexivity.
  - fold (lit l). split.
    + intros (u & v & -> & (c0 & -> & Hc) & Hv). cbn in Hc.
      apply N.eqb_eq in Hc. subst c0. apply IH in Hv. now subst v.
    + intros ->. exists [c], l. split; [reflexivity|]. split.
      * exists c. split; [reflexivity|]. cbn. apply N.eqb_refl.
      * now apply IH.
Qed.

(** The literal [/part/] matches the paths that contain [part]. *)
Lemma matches_lit_contains (part P : JsString) :
  matchesPattern (regexpLiteral (lit part)) P = true <-> contains part P.
Proof.
  rewrite matches_literal_iff. unfold contains. split.
  - intros (before & s1 & s2 & -> & Hd). apply den_lit in Hd. subst s1. eauto.
  - intros (before & after & ->). exists before, part, after.
    split; [reflexivity|]. now apply den_lit.
Qed.

Lemma dot_matches (s : JsString) :
  Forall (fun c => Regex.atomMatches Regex.ADot c = true) s <->
  Forall (fun c => Regex.isLineTerminator c = false) s.
Proof.
  split; intros H; (eapply Forall_impl; [exact H|]); intros c Hc; cbn in *;
    destruct (Regex.isLineTerminator c); auto; discriminate.
Qed.

Lemma den_defaultInclude (i : nat) (s1 s2 : JsString) :
  den defaultIncludeTree i s1 s2 <->
  exists middle ext,
    s1 = js "src/" ++ middle ++ js "." ++ ext /\ s2 = [] /\
    Forall (fun c => Regex.isLineTerminator c = false) middle /\
    In ext lintedExtensions.
Proof.
  unfold defaultIncludeTree. cbv zeta. cbn [den]. split.
  - intros (u & v & -> & Hu & u2 & v2 & -> & Hdot & u3 & v3 & -> & (c & -> & Hc)
            & u4 & v4 & -> & Hext & -> & ->).
    apply den_lit in Hu. subst u. cbn [Regex.atomMatches] in Hc. apply N.eqb_eq in Hc. subst c.
    apply dot_matches in Hdot.
    exists u2, u4. rewrite app_nil_r. split; [reflexivity|]. split; [reflexivity|].
    split; [assumption|]. unfold lintedExtensions.
    destruct Hext as [H|[(u5 & v5 & -> & H & Ho)|(u5 & v5 & -> & H & Ho)]];
      apply den_lit in H; subst.
    + now left.
    + destruct Ho as [->|(c & -> & Hc)].
      * right. now left.
      * cbn [Regex.atomMatches] in Hc. apply N.eqb_eq in Hc. subst c. right. right. now left.
    + destruct Ho as [->|(c & -> & Hc)].
      * do 3 right. now left.
      * cbn [Regex.atomMatches] in Hc. apply N.eqb_eq in Hc. subst c. do 4 right. now left.
  - intros (middle & ext & -> & -> & Hm & Hext).
    exists (js "src/"), (middle ++ js "." ++ ext). split; [reflexivity|].
    split; [now apply den_lit|].
    exists middle, (js "." ++ ext). split; [reflexivity|].
    split; [now apply dot_matches|].
    exists ["."], ext. split; [reflexivity|].
    split; [exists "."; split; reflexivity|].
    exists ext, []. split; [now rewrite app_nil_r|]. split; [|split; reflexivity].
    unfold lintedExtensions in Hext.
    destruct Hext as [<-|[<-|[<-|[<-|[<-|[]]]]]].
    + left. now apply den_lit.
    + right. left. exists (js "js"), []. split; [reflexivity|].
      split; [now apply den_lit|now left].
    + right. left. exists (js "js"), ["x"]. split; [reflexivity|].
      split; [now apply den_lit|]. right. exists "x". split; reflexivity.
    + right. right. exists (js "ts"), []. split; [reflexivity|].
      split; [now apply den_lit|now left].
    + right. right. exists (js "ts"), ["x"]. split; [reflexivity|].
      split; [now apply den_lit|]. right. exists "x". split; reflexivity.
Qed.

(** The default [include] matches the paths that have [src/], then
    any characters but line terminators, then one of the extensions at
    the end. *)
Lemma matches_defaultInclude (P : JsString) :
  matchesPattern (regexpLiteral defaultIncludeTree) P = true <-> defaultIncluded P.
Proof.
  rewrite matches_literal_iff. unfold defaultIncluded. split.
  - intros (before & s1 & s2 & -> & Hd). apply den_defaultInclude in Hd.
    destruct Hd as (middle & ext & -> & -> & Hm & He).
    exists before, middle, ext. rewrite app_nil_r. rewrite <- ?app_assoc. auto.
  - intros (before & middle & ext & -> & Hm & He).
    exists before, (js "src/" ++ middle ++ js "." ++ ext), [].
    rewrite app_nil_r. split; [reflexivity|]. apply den_defaultInclude. eauto 6.
Qed.

End TreeFacts.

(** * Properties of the plugin factory *)

Section FactoryFacts.

Import RegexTree.

Lemma defaults_lookup (st0 ext : Store) (k : nat) (R : RegExp) :
  defaultRegExps !! k = Some R ->
  ((st0 ++ defaultRegExps) ++ ext) !! (length st0 + k) = Some R.
Proof.
  intros H. rewrite lookup_app_l.
  - rewrite lookup_app_r by lia. now replace (length st0 + k - length st0) with k by lia.
  - apply lookup_lt_Some in H. rewrite length_app. lia.
Qed.

Lemma vitePluginEslint_some (opts : UserOptions) (st0 : Store) :
  exists plugin ext,
    vitePluginEslint opts st0 = Some (plugin, (st0 ++ defaultRegExps) ++ ext) /\
    (optExclude opts = None ->
     compiledExclude (pluginFilter plugin) = [length st0 + 1; length st0 + 2]) /\
    (optInclude opts = None ->
     compiledInclude (pluginFilter plugin) = [length st0]).
Proof.
  unfold vitePluginEslint.
  destruct (optInclude opts) as [inc|], (optExclude opts) as [exc|]; cbn [spread].
  - destruct (createFilter_some inc exc (st0 ++ defaultRegExps)) as [f [st [E _]]].
    pose proof E as E'. unfold createFilter in E'. rewrite !handlePath_compileAll in E'.
    destruct (compileAll (patternsOf inc) _) as [[ci st1]|] eqn:E1; [|discriminate].
    rewrite handlePath_compileAll in E'.
    destruct (compileAll (patternsOf exc) st1) as [[ce st2]|] eqn:E2; [|discriminate].
    injection E' as <- <-.
    destruct (compileAll_extends _ _ _ _ E1) as [ext1 [-> _]].
    destruct (compileAll_extends _ _ _ _ E2) as [ext2 [-> _]].
    rewrite E. eexists _, (ext1 ++ ext2). rewrite !app_assoc.
    split; [reflexivity|]. split; discriminate.
  - unfold createFilter. rewrite handlePath_compileAll.
    destruct (compileAll_some (patternsOf inc) (st0 ++ defaultRegExps))
      as [ci [st1 [E1 _]]].
    rewrite E1. destruct (compileAll_extends _ _ _ _ E1) as [ext1 [-> _]].
    cbn [handlePath compileAll compilePattern].
    eexists _, ext1. split; [reflexivity|]. split; [reflexivity|discriminate].
  - unfold createFilter. cbn [handlePath compileAll compilePattern].
    rewrite handlePath_compileAll.
    destruct (compileAll_some (patternsOf exc) (st0 ++ defaultRegExps))
      as [ce [st1 [E1 _]]].
    rewrite E1. destruct (compileAll_extends _ _ _ _ E1) as [ext1 [-> _]].
    eexists _, ext1. split; [reflexivity|]. split; [discriminate|reflexivity].
  - unfold createFilter. cbn [handlePath compileAll compilePattern].
    eexists _, []. rewrite app_nil_r. repeat split.
Qed.

(** The default exclude expressions are flagless objects that stay
    what they are, whatever calls are made. *)
Lemma default_exclude_hit (f : Filter) (st0 ext : Store) (history : list JsString)
      (P : JsString) :
  compiledExclude f = [length st0 + 1; length st0 + 2] ->
  contains (js "node_modules") P \/ contains (js "virtual:") P ->
  fst (filter f P (afterCalls f history ((st0 ++ defaultRegExps) ++ ext))) = false.
Proof.
  intros Hce Hc.
  assert (Hhit : exists k part,
             (k = 1 \/ k = 2) /\
             defaultRegExps !! k = Some (regexpLiteral (lit part)) /\
             contains part P).
  { destruct Hc as [Hc|Hc]; [exists 1, (js "node_modules")|exists 2, (js "virtual:")];
      auto. }
  destruct Hhit as (k & part & Hk & Hd & Hp).
  pose proof (defaults_lookup st0 ext k _ Hd) as Hl.
  destruct (afterCalls_kept f history ((st0 ++ defaultRegExps) ++ ext)) as [_ Hkept].
  destruct (Hkept _ _ Hl) as (R' & Hl' & _ & _ & _ & Hsame).
  rewrite (Hsame eq_refl eq_refl) in Hl'.
  eapply exclude_hit_rejects; [|exact Hl'|].
  - rewrite Hce. destruct Hk as [-> | ->]; [left|right; left]; reflexivity.
  - apply matches_lit_contains in Hp. unfold matchesPattern in Hp.
    change (setLastIndex (regexpLiteral (lit part)) 0)
      with (regexpLiteral (lit part)) in Hp.
    destruct (fst (RegExpBuiltinExec (regexpLiteral (lit part)) P)); congruence.
Qed.

Lemma default_matchesAt (st0 ext : Store) (P : JsString) :
  matchesAt ((st0 ++ defaultRegExps) ++ ext) P (length st0)
  = matchesPattern (regexpLiteral defaultIncludeTree) P /\
  matchesAt ((st0 ++ defaultRegExps) ++ ext) P (length st0 + 1)
  = matchesPattern (regexpLiteral (lit (js "node_modules"))) P /\
  matchesAt ((st0 ++ defaultRegExps) ++ ext) P (length st0 + 2)
  = matchesPattern (regexpLiteral (lit (js "virtual:"))) P.
Proof.
  unfold matchesAt, loc.
  pose proof (defaults_lookup st0 ext 0 _ eq_refl) as H0. rewrite Nat.add_0_r in H0.
  rewrite H0, (defaults_lookup st0 ext 1 _ eq_refl), (defaults_lookup st0 ext 2 _ eq_refl).
  auto.
Qed.

Lemma default_statelessAt (st0 ext : Store) (k : nat) :
  k < 3 -> statelessAt ((st0 ++ defaultRegExps) ++ ext) (length st0 + k).
Proof.
  intros Hk. destruct (defaultRegExps !! k) as [R|] eqn:E.
  - exists R. split; [now apply defaults_lookup|].
    destruct k as [|[|[|k]]]; [| | |lia]; cbn in E; injection E as <-; split; reflexivity.
  - apply lookup_ge_None in E. cbn in E. lia.
Qed.

Lemma vitePluginEslint_options (opts : UserOptions) (st0 st : Store) (plugin : Plugin) :
  vitePluginEslint opts st0 = Some (plugin, st) ->
  options plugin
  = mkPluginOptions
      (flagTruthy (spread (FlagBool false) (optFix opts)))
      (flagTruthy (spread (FlagBool true) (optThrowOnError opts)))
      (flagTruthy (spread (FlagBool false) (optThrowOnWarning opts)))
      (spread (js "stylish") (optFormatter opts)) /\
  configFile plugin = optConfigFile opts.
Proof.
  unfold vitePluginEslint. destruct (createFilter _ _ _) as [[f st']|]; [|discriminate].
  intros H. injection H as <- <-. split; reflexivity.
Qed.

(** X13.  Unless [options] has its own [exclude], a path that
    contains [node_modules] or [virtual:] is never linted, whatever
    [include] is and whatever calls came before: the filter rejects
    it, and the hook answers [null] without calling the engine or the
    console and without writing to storage. *)
Theorem default_exclude_skips_dependencies (opts : UserOptions) (st0 : Store) :
  optExclude opts = None ->
  exists plugin st,
    vitePluginEslint opts st0 = Some (plugin, st) /\
    forall history P,
      contains (js "node_modules") P \/ contains (js "virtual:") P ->
      fst (filter (pluginFilter plugin) P
                  (afterCalls (pluginFilter plugin) history st)) = false /\
      forall eslint cwd relative code w,
        store w = afterCalls (pluginFilter plugin) history st ->
        fst (transform (options plugin) (pluginFilter plugin) eslint cwd relative
                       code P w) = Normal null /\
        log (snd (transform (options plugin) (pluginFilter plugin) eslint cwd relative
                            code P w)) = log w /\
        disk (snd (transform (options plugin) (pluginFilter plugin) eslint cwd relative
                             code P w)) = disk w.
Proof.
  intros Hx. destruct (vitePluginEslint_some opts st0) as (plugin & ext & E & Hce & _).
  exists plugin, ((st0 ++ defaultRegExps) ++ ext). split; [exact E|].
  intros history P Hc.
  pose proof (default_exclude_hit _ st0 ext history P (Hce Hx) Hc) as Hf.
  split; [exact Hf|]. intros eslint cwd relative code w Hw. rewrite <- Hw in Hf.
  rewrite (transform_filtered_out _ _ eslint cwd relative code _ _ Hf).
  repeat split.
Qed.

(** The factory called without options, and [node_modules/vue/index.js]. *)
Lemma default_exclude_skips_dependencies_witness :
  optExclude noOptions = None /\
  exists plugin st,
    vitePluginEslint noOptions [] = Some (plugin, st) /\
    fst (filter (pluginFilter plugin) (js "node_modules/vue/index.js") st) = false.
Proof.
  split; [reflexivity|].
  destruct (default_exclude_skips_dependencies noOptions [] eq_refl)
    as (plugin & st & E & H).
  exists plugin, st. split; [exact E|].
  apply (proj1 (H [] (js "node_modules/vue/index.js")
                  (or_introl (ex_intro _ []
                     (ex_intro _ (js "/vue/index.js") eq_refl))))).
Defined.

(** X14.  Called without [include] and [exclude], the factory gives a
    filter that accepts exactly the paths that have [src/] somewhere,
    then any characters but line terminators, then [.vue], [.js],
    [.jsx], [.ts] or [.tsx] at the very end, and that contain neither
    [node_modules] nor [virtual:]. *)
Theorem default_filter_accepts (opts : UserOptions) (st0 : Store) :
  optInclude opts = None ->
  optExclude opts = None ->
  exists plugin st,
    vitePluginEslint opts st0 = Some (plugin, st) /\
    forall history P,
      fst (filter (pluginFilter plugin) P
                  (afterCalls (pluginFilter plugin) history st)) = true <->
      defaultIncluded P /\
      ~ contains (js "node_modules") P /\
      ~ contains (js "virtual:") P.
Proof.
  intros Hi Hx. destruct (vitePluginEslint_some opts st0) as (plugin & ext & E & Hce & Hci).
  exists plugin, ((st0 ++ defaultRegExps) ++ ext). split; [exact E|].
  specialize (Hce Hx). specialize (Hci Hi).
  assert (Si : Forall (statelessAt ((st0 ++ defaultRegExps) ++ ext))
                      (compiledInclude (pluginFilter plugin))).
  { rewrite Hci. constructor; [|constructor].
    pose proof (default_statelessAt st0 ext 0) as H. rewrite Nat.add_0_r in H.
    apply H. lia. }
  assert (Se : Forall (statelessAt ((st0 ++ defaultRegExps) ++ ext))
                      (compiledExclude (pluginFilter plugin))).
  { rewrite Hce. repeat constructor; apply default_statelessAt; lia. }
  intros history P.
  rewrite (afterCalls_stateless _ _ _ Si Se), (filter_stateless _ _ _ Si Se).
  cbn [fst]. unfold pureFilter. rewrite Hce, Hci. cbn [existsb length Nat.eqb].
  destruct (default_matchesAt st0 ext P) as (-> & -> & ->).
  rewrite !orb_false_r.
  rewrite <- matches_defaultInclude, <- !matches_lit_contains.
  destruct (matchesPattern (regexpLiteral (lit (js "node_modules"))) P),
           (matchesPattern (regexpLiteral (lit (js "virtual:"))) P),
           (matchesPattern (regexpLiteral defaultIncludeTree) P);
    cbn; intuition congruence.
Qed.

(** The factory called without options. *)
Lemma default_filter_accepts_witness :
  optInclude noOptions = None /\ optExclude noOptions = None /\
  exists plugin st,
    vitePluginEslint noOptions [] = Some (plugin, st) /\
    (fst (filter (pluginFilter plugin) (js "/app/src/views/Home.vue") st) = true <->
     defaultIncluded (js "/app/src/views/Home.vue") /\
     ~ contains (js "node_modules") (js "/app/src/views/Home.vue") /\
     ~ contains (js "virtual:") (js "/app/src/views/Home.vue")).
Proof.
  split; [reflexivity|]. split; [reflexivity|].
  destruct (default_filter_accepts noOptions [] eq_refl eq_refl)
    as (plugin & st & E & H).
  exists plugin, st. split; [exact E|]. exact (H [] (js "/app/src/views/Home.vue")).
Defined.

Lemma vitePluginEslint_include_length (opts : UserOptions) (st0 st : Store)
      (plugin : Plugin) (inc : PathOption) :
  optInclude opts = Some inc ->
  vitePluginEslint opts st0 = Some (plugin, st) ->
  length (compiledInclude (pluginFilter plugin)) = length (patternsOf inc).
Proof.
  unfold vitePluginEslint. intros ->. cbn [spread].
  destruct (createFilter_some inc
              (spread (Array [PRegExp (length st0 + 1); PRegExp (length st0 + 2)])
                      (optExclude opts))
              (st0 ++ defaultRegExps)) as [f [st1 [E [Li _]]]].
  rewrite E. intros H. injection H as <- <-. exact Li.
Qed.

(** X15.  A key that is present in [options] replaces the default
    even when its value is [undefined]: with [include] given as
    [undefined], [null] or an empty array, and no [exclude] of its
    own, the plugin lints every path that contains neither
    [node_modules] nor [virtual:], whatever its extension. *)
Theorem empty_include_replaces_default (opts : UserOptions) (st0 : Store)
        (inc : PathOption) :
  optInclude opts = Some inc ->
  patternsOf inc = [] ->
  optExclude opts = None ->
  exists plugin st,
    vitePluginEslint opts st0 = Some (plugin, st) /\
    forall history P,
      fst (filter (pluginFilter plugin) P
                  (afterCalls (pluginFilter plugin) history st)) = true <->
      ~ contains (js "node_modules") P /\ ~ contains (js "virtual:") P.
Proof.
  intros Hi Hp Hx. destruct (vitePluginEslint_some opts st0) as (plugin & ext & E & Hce & _).
  exists plugin, ((st0 ++ defaultRegExps) ++ ext). split; [exact E|].
  specialize (Hce Hx).
  pose proof (vitePluginEslint_include_length _ _ _ _ _ Hi E) as Hl.
  rewrite Hp in Hl. destruct (compiledInclude (pluginFilter plugin)) as [|r rs] eqn:Hci;
    [|discriminate Hl].
  assert (Si : Forall (statelessAt ((st0 ++ defaultRegExps) ++ ext))
                      (compiledInclude (pluginFilter plugin)))
    by (rewrite Hci; constructor).
  assert (Se : Forall (statelessAt ((st0 ++ defaultRegExps) ++ ext))
                      (compiledExclude (pluginFilter plugin))).
  { rewrite Hce. repeat constructor; apply default_statelessAt; lia. }
  intros history P.
  rewrite (afterCalls_stateless _ _ _ Si Se), (filter_stateless _ _ _ Si Se).
  cbn [fst]. unfold pureFilter. rewrite Hce, Hci. cbn [existsb length Nat.eqb].
  destruct (default_matchesAt st0 ext P) as (_ & -> & ->).
  rewrite !orb_false_r. rewrite <- !matches_lit_contains.
  destruct (matchesPattern (regexpLiteral (lit (js "node_modules"))) P),
           (matchesPattern (regexpLiteral (lit (js "virtual:"))) P);
    cbn; intuition congruence.
Qed.

(** [vitePluginEslint({include: undefined})] *)
Lemma empty_include_replaces_default_witness :
  optInclude (mkUserOptions (Some Undefined) None None None None None None)
  = Some Undefined /\
  patternsOf Undefined = [] /\
  exists plugin st,
    vitePluginEslint (mkUserOptions (Some Undefined) None None None None None None) []
    = Some (plugin, st) /\
    fst (filter (pluginFilter plugin) (js "README.md") st) = true.
Proof.
  split; [reflexivity|]. split; [reflexivity|].
  destruct (empty_include_replaces_default
              (mkUserOptions (Some Undefined) None None None None None None) []
              Undefined eq_refl eq_refl eq_refl) as (plugin & st & E & H).
  exists plugin, st. split; [exact E|].
  cbn in E. injection E as <- <-. reflexivity.
Defined.

Lemma strings_statelessAt (pre post : Store) (ss : list JsString) :
  Forall (statelessAt (pre ++ map compiledRegExp ss ++ post))
         (seq (length pre) (length ss)).
Proof.
  revert pre. induction ss as [|s ss IH]; intros pre; [constructor|].
  cbn [length seq map]. constructor.
  - exists (compiledRegExp s). split; [|split; reflexivity].
    rewrite lookup_app_r by lia. now rewrite Nat.sub_diag.
  - specialize (IH (pre ++ [compiledRegExp s])).
    rewrite length_app, Nat.add_1_r, <- app_assoc in IH. exact IH.
Qed.

(** X16.  An [exclude] in [options] replaces the default exclude, it
    does not add to it: with an array of strings as [exclude] and the
    default [include], the filter accepts every path of the default
    [include] that is not equal to one of those strings - paths under
    [node_modules] among them. *)
Theorem own_exclude_replaces_default (opts : UserOptions) (st0 : Store)
        (excl : list JsString) :
  optInclude opts = None ->
  optExclude opts = Some (strings excl) ->
  exists plugin st,
    vitePluginEslint opts st0 = Some (plugin, st) /\
    forall history P,
      fst (filter (pluginFilter plugin) P
                  (afterCalls (pluginFilter plugin) history st)) = true <->
      defaultIncluded P /\ ~ (In P excl /\ ~ In "*" P).
Proof.
  intros Hi Hx. unfold vitePluginEslint. rewrite Hi, Hx. cbn [spread].
  unfold createFilter, strings. cbn [handlePath compileAll compilePattern].
  rewrite compileAll_strings.
  eexists _, _. split; [reflexivity|]. cbn [pluginFilter].
  set (f := mkFilter [length st0] (seq (length (st0 ++ defaultRegExps)) (length excl))).
  assert (Si : Forall (statelessAt ((st0 ++ defaultRegExps) ++ map compiledRegExp excl))
                      (compiledInclude f)).
  { cbn. constructor; [|constructor].
    pose proof (default_statelessAt st0 (map compiledRegExp excl) 0) as H.
    rewrite Nat.add_0_r in H. apply H. lia. }
  assert (Se : Forall (statelessAt ((st0 ++ defaultRegExps) ++ map compiledRegExp excl))
                      (compiledExclude f)).
  { cbn [f compiledExclude].
    pose proof (strings_statelessAt (st0 ++ defaultRegExps) [] excl) as H.
    now rewrite app_nil_r in H. }
  intros history P.
  rewrite (afterCalls_stateless _ _ _ Si Se), (filter_stateless _ _ _ Si Se).
  cbn [fst]. unfold pureFilter. cbn [f compiledInclude compiledExclude existsb length Nat.eqb].
  pose proof (existsb_matchesAt_seq (st0 ++ defaultRegExps) [] excl P) as Xe.
  rewrite app_nil_r in Xe. rewrite Xe. clear Xe.
  destruct (default_matchesAt st0 (map compiledRegExp excl) P) as (-> & _ & _).
  rewrite orb_false_r. rewrite <- matches_defaultInclude.
  pose proof (existsb_compiled excl P) as Ce.
  destruct (existsb _ excl).
  - split; [discriminate|]. intros [_ Hn]. exfalso. apply Hn. now apply Ce.
  - split.
    + intros H. split; [exact H|]. intros Hc. apply Ce in Hc. discriminate.
    + intros [H _]. exact H.
Qed.

(** [vitePluginEslint({exclude: ['dist']})] and a file of a dependency. *)
Lemma own_exclude_replaces_default_witness :
  exists plugin st,
    vitePluginEslint
      (mkUserOptions None (Some (strings [js "dist"])) None None None None None) []
    = Some (plugin, st) /\
    fst (filter (pluginFilter plugin) (js "node_modules/pkg/src/index.js") st) = true.
Proof.
  destruct (own_exclude_replaces_default
              (mkUserOptions None (Some (strings [js "dist"])) None None None None None)
              [] [js "dist"] eq_refl eq_refl) as (plugin & st & E & H).
  exists plugin, st. split; [exact E|].
  cbn in E. injection E as <- <-. reflexivity.
Defined.

(** X17.  With [throwOnError] and [throwOnWarning] left out of
    [options], the hook fails the build on errors only: in a linted
    cycle it throws exactly when the first result has an error,
    whatever the number of warnings. *)
Theorem default_policy_aborts_on_errors_only (opts : UserOptions) (st0 st : Store)
        (plugin : Plugin) (eslint : ESLint) (cwd : JsString)
        (relative : JsString -> JsString -> JsString) (w : World)
        (code id : JsString) (result : LintResult) (rest : list LintResult)
        (fmt : Formatter) (text : JsString) :
  optThrowOnError opts = None ->
  optThrowOnWarning opts = None ->
  vitePluginEslint opts st0 = Some (plugin, st) ->
  linted (options plugin) (pluginFilter plugin) eslint w code id (result :: rest)
         fmt text ->
  ((exists e,
      fst (transform (options plugin) (pluginFilter plugin) eslint cwd relative
                     code id w) = Throw e) <->
   0 < errorCount result).
Proof.
  intros He Hw E H.
  rewrite (transform_linted _ _ _ cwd relative _ _ _ _ _ _ _ H).
  destruct (vitePluginEslint_options _ _ _ _ E) as [-> _].
  unfold shouldAbort. cbn [throwOnError throwOnWarning]. rewrite He, Hw.
  cbn [spread flagTruthy]. rewrite andb_true_r, andb_false_r, orb_false_r.
  destruct (Nat.ltb_spec 0 (errorCount result)); cbn [fst]; split; eauto; try lia.
  intros [e Hc]. discriminate Hc.
Qed.

End FactoryFacts.

(** * Properties of the [configResolved] hook *)

(** X19.  [configResolved] constructs the engine with [fix] exactly
    when [options] has a truthy [fix], and with the configuration file
    resolved against the working directory exactly when [options] has
    a non-empty [configFile].  If the constructor throws, the error is
    written to [console.error] once and thrown on as it is, whatever
    [throwOnError] says; otherwise nothing is logged. *)
Theorem configResolved_builds_engine_or_rethrows
        (newESLint : ESLintOptions -> Completion ESLint) (cwd : JsString)
        (resolve : JsString -> JsString -> JsString)
        (opts : UserOptions) (st0 st : Store) (plugin : Plugin) (w : World) :
  vitePluginEslint opts st0 = Some (plugin, st) ->
  configResolved newESLint cwd resolve plugin w
  = match newESLint
            (mkESLintOptions
               (flagTruthy (spread (FlagBool false) (optFix opts)))
               (match optConfigFile opts with
                | Some file => if truthy file then Some (resolve cwd file) else None
                | None => None
                end)) with
    | Normal engine => (Normal engine, w)
    | Throw e =>
        (Throw e, addLog [EvConsoleError (js "Failed to initialize ESLint:") e] w)
    end.
Proof.
  intros E. destruct (vitePluginEslint_options _ _ _ _ E) as [Ho Hc].
  unfold configResolved, tryCatch. rewrite Ho, Hc. cbn [fix_].
  destruct (newESLint _) as [engine|e]; reflexivity.
Qed.

(** [vitePluginEslint({throwOnError: false, configFile: 'missing.js'})]
    with a constructor that cannot read the file. *)
Lemma configResolved_builds_engine_or_rethrows_witness :
  vitePluginEslint
    (mkUserOptions None None None (Some (FlagBool false)) None None
                   (Some (js "missing.js"))) []
  = Some (mkPlugin (mkPluginOptions false false false (js "stylish"))
                   (Some (js "missing.js")) (mkFilter [0] [1; 2]),
          defaultRegExps) /\
  configResolved pickyConstructor (js "/w") joinPath
    (mkPlugin (mkPluginOptions false false false (js "stylish"))
              (Some (js "missing.js")) (mkFilter [0] [1; 2]))
    emptyWorld
  = (Throw (newError (js "Cannot read config file: /w/missing.js")),
     mkWorld [] []
       [EvConsoleError (js "Failed to initialize ESLint:")
          (newError (js "Cannot read config file: /w/missing.js"))]).
Proof.
  split; [reflexivity|].
  exact (configResolved_builds_engine_or_rethrows pickyConstructor (js "/w") joinPath
           (mkUserOptions None None None (Some (FlagBool false)) None None
                          (Some (js "missing.js")))
           [] defaultRegExps _ emptyWorld eq_refl).
Defined.

(** * The further properties at concrete inputs *)

(** A path under [node_modules] with [/node_modules/] as exclude. *)
Lemma filtered_out_file_is_not_linted_witness :
  fst (filter (mkFilter [] [0]) (js "node_modules/a.js")
              (store (mkWorld [nodeModules] [] []))) = false /\
  fst (transform strict (mkFilter [] [0]) (reportingEngine [flagged]) (js "/w") stripRoot
                 (js "code") (js "node_modules/a.js") (mkWorld [nodeModules] [] []))
  = Normal null.
Proof.
  split; [reflexivity|].
  exact (proj1 (filtered_out_file_is_not_linted strict (mkFilter [] [0])
                  (reportingEngine [flagged]) (js "/w") stripRoot
                  (mkWorld [nodeModules] [] []) (js "code") (js "node_modules/a.js")
                  eq_refl)).
Defined.

(** An engine that ignores the file. *)
Lemma ignored_file_is_not_linted_witness :
  fst (filter passAll (js "/w/app.js") (store emptyWorld)) = true /\
  isPathIgnored ignoringEngine (js "/w/app.js") = Normal true /\
  log (snd (transform strict passAll ignoringEngine (js "/w") stripRoot
                      (js "code") (js "/w/app.js") emptyWorld))
  = [EvIsPathIgnored (js "/w/app.js")].
Proof.
  split; [reflexivity|]. split; [reflexivity|].
  exact (proj1 (proj2 (ignored_file_is_not_linted strict passAll ignoringEngine
                         (js "/w") stripRoot emptyWorld (js "code") (js "/w/app.js")
                         eq_refl eq_refl))).
Defined.

(** [lintText] throws [null] with both flags off: the hook throws the
    [TypeError] of the [catch] block. *)
Lemma thrown_errors_are_of_four_kinds_witness :
  fst (transform lenient passAll (failingEngine thrownNull) (js "/w") stripRoot
                 (js "code") (js "/w/app.js") emptyWorld)
  = Throw (newTypeError nullComplaint) /\
  ((exists result rest fmt text,
      linted lenient passAll (failingEngine thrownNull) emptyWorld (js "code")
             (js "/w/app.js") (result :: rest) fmt text /\
      shouldAbort lenient result = true /\
      newTypeError nullComplaint
      = validationError (js "/w") stripRoot (js "/w/app.js") result) \/
   (exists e0 text,
      engineFailure lenient (failingEngine thrownNull) emptyWorld (js "code")
                    (js "/w/app.js") e0 /\
      messageSlot e0 = StringMessage text /\
      includes validationMarker text = false /\
      throwOnError lenient = true /\
      newTypeError nullComplaint = newError (js "ESLint plugin error: " ++ text)) \/
   (exists text,
      engineFailure lenient (failingEngine thrownNull) emptyWorld (js "code")
                    (js "/w/app.js") (newTypeError nullComplaint) /\
      messageSlot (newTypeError nullComplaint) = StringMessage text /\
      includes validationMarker text = true) \/
   (exists e0 complaint,
      engineFailure lenient (failingEngine thrownNull) emptyWorld (js "code")
                    (js "/w/app.js") e0 /\
      messageSlot e0 = NoStringMessage complaint /\
      newTypeError nullComplaint = newTypeError complaint)).
Proof.
  split; [reflexivity|].
  exact (thrown_errors_are_of_four_kinds lenient passAll (failingEngine thrownNull)
           (js "/w") stripRoot emptyWorld (js "code") (js "/w/app.js") _ eq_refl).
Defined.

(** Both flags off and an engine whose [lintText] throws
    [config not found]. *)
Lemma hook_never_throws_with_flags_off_witness :
  throwOnError lenient = false /\
  throwOnWarning lenient = false /\
  engineFailure lenient (failingEngine (newError (js "config not found")))
                emptyWorld (js "code") (js "/w/app.js")
                (newError (js "config not found")) /\
  fst (transform lenient passAll (failingEngine (newError (js "config not found")))
                 (js "/w") stripRoot (js "code") (js "/w/app.js") emptyWorld)
  = Normal null.
Proof.
  split; [reflexivity|]. split; [reflexivity|].
  split; [apply ThrowsLintText; reflexivity|].
  apply (hook_never_throws_with_flags_off lenient passAll
           (failingEngine (newError (js "config not found")))
           (js "/w") stripRoot emptyWorld (js "code") (js "/w/app.js")
           eq_refl eq_refl).
  intros e He.
  destruct He as [e H1|e H1 H2|e rs H1 H2 H3 H4 H5|e rs H1 H2 H3 H4 H5
                 |e rs fmt H1 H2 H3 H4 H5 H6].
  - discriminate H1.
  - cbn in H2. injection H2 as <-. exists (js "config not found"). split; reflexivity.
  - discriminate H2.
  - discriminate H2.
  - discriminate H2.
Defined.

(** [lintText] throws [null] with [throwOnError] on: the hook throws
    the [TypeError], not an [ESLint plugin error]. *)
Lemma value_without_message_raises_type_error_witness :
  fst (filter passAll (js "/w/app.js") (store emptyWorld)) = true /\
  engineFailure strict (failingEngine thrownNull) emptyWorld (js "code")
                (js "/w/app.js") thrownNull /\
  messageSlot thrownNull = NoStringMessage nullComplaint /\
  fst (transform strict passAll (failingEngine thrownNull) (js "/w") stripRoot
                 (js "code") (js "/w/app.js") emptyWorld)
  = Throw (newTypeError nullComplaint).
Proof.
  assert (He : engineFailure strict (failingEngine thrownNull) emptyWorld (js "code")
                 (js "/w/app.js") thrownNull).
  { apply ThrowsLintText; reflexivity. }
  split; [reflexivity|]. split; [exact He|]. split; [reflexivity|].
  exact (proj1 (value_without_message_raises_type_error strict passAll
                  (failingEngine thrownNull) (js "/w") stripRoot emptyWorld
                  (js "code") (js "/w/app.js") thrownNull nullComplaint
                  eq_refl He eq_refl)).
Defined.

(** One error and two warnings, [fix] on, an abort at the end. *)
Lemma linted_cycle_trace_witness :
  linted strict passAll (reportingEngine [flagged]) emptyWorld (js "code")
         (js "/w/app.js") [flagged] summaryFormatter (js "problems found") /\
  log (snd (transform strict passAll (reportingEngine [flagged]) (js "/w") stripRoot
                      (js "code") (js "/w/app.js") emptyWorld))
  = [EvIsPathIgnored (js "/w/app.js"); EvLintText (js "code") (js "/w/app.js");
     EvOutputFixes [flagged]; EvLoadFormatter (js "stylish"); EvFormat [flagged];
     EvConsoleLog (js "problems found")].
Proof.
  assert (H : linted strict passAll (reportingEngine [flagged]) emptyWorld (js "code")
                (js "/w/app.js") [flagged] summaryFormatter (js "problems found")).
  { repeat split. }
  split; [exact H|].
  exact (linted_cycle_trace strict passAll (reportingEngine [flagged]) (js "/w")
           stripRoot emptyWorld (js "code") (js "/w/app.js") flagged []
           summaryFormatter (js "problems found") H).
Defined.

(** The factory called without options, a file with three warnings
    and no error: the hook does not throw. *)
Lemma default_policy_aborts_on_errors_only_witness :
  vitePluginEslint noOptions [] = Some (defaultPlugin, defaultRegExps) /\
  linted (options defaultPlugin) (pluginFilter defaultPlugin) (reportingEngine [warned])
         defaultWorld (js "code") (js "/w/src/app.js") [warned] summaryFormatter
         (js "problems found") /\
  ((exists e,
      fst (transform (options defaultPlugin) (pluginFilter defaultPlugin)
                     (reportingEngine [warned]) (js "/w") stripRoot
                     (js "code") (js "/w/src/app.js") defaultWorld) = Throw e) <->
   0 < errorCount warned).
Proof.
  assert (H : linted (options defaultPlugin) (pluginFilter defaultPlugin)
                (reportingEngine [warned]) defaultWorld (js "code")
                (js "/w/src/app.js") [warned] summaryFormatter (js "problems found")).
  { repeat split. }
  split; [reflexivity|]. split; [exact H|].
  exact (default_policy_aborts_on_errors_only noOptions [] defaultRegExps defaultPlugin
           (reportingEngine [warned]) (js "/w") stripRoot defaultWorld (js "code")
           (js "/w/src/app.js") warned [] summaryFormatter (js "problems found")
           eq_refl eq_refl eq_refl H).
Defined.
